(** * websitebuilder-server: schema, storage layer and HTTP routes

    A shallow embedding of [shared/schema.ts], [server/storage.ts] and
    [server/routes.ts].  The relational store is a record of tables, every
    table a list of rows and a serial counter; a row, like every JavaScript
    object that the server handles (request bodies, validated payloads), is
    a finite map from property names to values.  The three libraries the
    code delegates to are modelled by what the code asks of them:
    drizzle-zod/zod (schema derivation and [parse]), drizzle/PostgreSQL
    (insert, update, delete, select with [eq], [orderBy], [limit]) and
    multer (the single-file upload filter). *)

From Stdlib Require Import ZArith Lia.
From stdpp Require Import base option list gmap strings sorting.

Local Open Scope Z_scope.

(** ** JavaScript values and objects *)

(** The values that occur: [null], strings, numbers (the code only ever
    makes integers: identifiers), booleans and timestamps. *)
Inductive Val :=
| Null
| Str (s : string)
| Num (n : Z)
| Bool (b : bool)
| Date (t : Z).

#[global] Instance Val_eq_dec : EqDecision Val.
Proof. solve_decision. Defined.

(** An object: absent key = [undefined]. *)
Abbreviation Obj := (gmap string Val).

(** ** Errors and results *)

Inductive Err :=
| ZodError
| NotNullViolation
| ForeignKeyViolation
| NoValuesToSet
| OnlyImageFilesAllowed     (* new Error('Only image files are allowed') *)
| LIMIT_FILE_SIZE.          (* multer's error code *)

Inductive Result (A : Type) :=
| Ok (a : A)
| Throw (e : Err).
Arguments Ok {A} a.
Arguments Throw {A} e.

(** ** The store *)

Record Table := { rows : list Obj; seq : Z }.

Record Store := {
  tbl_site_config : Table;
  tbl_projects : Table;
  tbl_products : Table;
  tbl_messages : Table;
  tbl_message_replies : Table
}.

Definition emptyTable : Table := {| rows := []; seq := 0 |}.

Definition emptyStore : Store :=
  {| tbl_site_config := emptyTable; tbl_projects := emptyTable;
     tbl_products := emptyTable; tbl_messages := emptyTable;
     tbl_message_replies := emptyTable |}.

(** The table handles that [shared/schema.ts] exports ([users] apart). *)
Inductive TableRef := siteConfig | projects | products | messages | messageReplies.

#[global] Instance TableRef_eq_dec : EqDecision TableRef.
Proof. solve_decision. Defined.

Definition tget (t : TableRef) (st : Store) : Table :=
  match t with
  | siteConfig => tbl_site_config st
  | projects => tbl_projects st
  | products => tbl_products st
  | messages => tbl_messages st
  | messageReplies => tbl_message_replies st
  end.

Definition tset (t : TableRef) (tb : Table) (st : Store) : Store :=
  match t with
  | siteConfig =>
      {| tbl_site_config := tb; tbl_projects := tbl_projects st;
         tbl_products := tbl_products st; tbl_messages := tbl_messages st;
         tbl_message_replies := tbl_message_replies st |}
  | projects =>
      {| tbl_site_config := tbl_site_config st; tbl_projects := tb;
         tbl_products := tbl_products st; tbl_messages := tbl_messages st;
         tbl_message_replies := tbl_message_replies st |}
  | products =>
      {| tbl_site_config := tbl_site_config st; tbl_projects := tbl_projects st;
         tbl_products := tb; tbl_messages := tbl_messages st;
         tbl_message_replies := tbl_message_replies st |}
  | messages =>
      {| tbl_site_config := tbl_site_config st; tbl_projects := tbl_projects st;
         tbl_products := tbl_products st; tbl_messages := tb;
         tbl_message_replies := tbl_message_replies st |}
  | messageReplies =>
      {| tbl_site_config := tbl_site_config st; tbl_projects := tbl_projects st;
         tbl_products := tbl_products st; tbl_messages := tbl_messages st;
         tbl_message_replies := tb |}
  end.

(** ** Column declarations (drizzle-orm/pg-core) *)

Inductive ColType := CText | CSerial | CInteger | CBoolean | CTimestamp.

Inductive ColDefault :=
| NoDefault
| DefaultLit (v : Val)
| DefaultNow
| DefaultNextval.

Record Column := {
  cname : string;
  ctype : ColType;
  cnotNull : bool;
  cdefault : ColDefault;
  creferences : option (TableRef * string)
}.

Definition mkcol (n : string) (t : ColType) : Column :=
  {| cname := n; ctype := t; cnotNull := false; cdefault := NoDefault;
     creferences := None |}.

Definition text (n : string) : Column := mkcol n CText.
Definition integer (n : string) : Column := mkcol n CInteger.
Definition boolean (n : string) : Column := mkcol n CBoolean.
Definition timestamp (n : string) : Column := mkcol n CTimestamp.

(** [serial(..)]: an integer column, not null, filled from its sequence. *)
Definition serial (n : string) : Column :=
  {| cname := n; ctype := CSerial; cnotNull := true;
     cdefault := DefaultNextval; creferences := None |}.

Definition notNull (c : Column) : Column :=
  {| cname := cname c; ctype := ctype c; cnotNull := true;
     cdefault := cdefault c; creferences := creferences c |}.

Definition default (v : Val) (c : Column) : Column :=
  {| cname := cname c; ctype := ctype c; cnotNull := cnotNull c;
     cdefault := DefaultLit v; creferences := creferences c |}.

Definition defaultNow (c : Column) : Column :=
  {| cname := cname c; ctype := ctype c; cnotNull := cnotNull c;
     cdefault := DefaultNow; creferences := creferences c |}.

(** A primary key is not null; uniqueness is not checked here because no
    caller ever supplies the key: it always comes from the sequence. *)
Definition primaryKey (c : Column) : Column := notNull c.

Definition references (t : TableRef) (k : string) (c : Column) : Column :=
  {| cname := cname c; ctype := ctype c; cnotNull := cnotNull c;
     cdefault := cdefault c; creferences := Some (t, k) |}.

(** ** shared/schema.ts: the tables

    Columns are named by their JavaScript property, the name under which
    rows and payloads carry them. *)

Definition siteConfig_columns : list Column := [
  primaryKey (serial "id");
  notNull (text "companyName");
  text "heroTitle";
  text "heroDescription";
  default (Str "Over Ons") (text "aboutTitle");
  text "aboutDescription";
  text "logoUrl";
  text "faviconUrl";
  default (Str "#2563eb") (text "primaryColor");
  default (Str "#1e40af") (text "secondaryColor");
  default (Str "#059669") (text "accentColor");
  default (Str "#1f2937") (text "textColor");
  default (Str "#ffffff") (text "backgroundColor");
  default (Str "Inter") (text "fontFamily");
  text "email";
  text "phone";
  text "address";
  text "facebookUrl";
  text "twitterUrl";
  text "instagramUrl";
  text "linkedinUrl";
  text "siteTitle";
  text "seoDescription";
  text "seoKeywords";
  text "metaDescription";
  text "metaKeywords"
].

Definition projects_columns : list Column := [
  primaryKey (serial "id");
  notNull (text "title");
  notNull (text "description");
  notNull (text "category");
  default (Str "concept") (notNull (text "status"));
  text "imageUrl";
  defaultNow (timestamp "createdAt")
].

Definition products_columns : list Column := [
  primaryKey (serial "id");
  notNull (text "title");
  notNull (text "description");
  notNull (text "price");
  text "imageUrl";
  default (Str "active") (notNull (text "status"));
  defaultNow (timestamp "createdAt")
].

Definition messages_columns : list Column := [
  primaryKey (serial "id");
  notNull (text "name");
  notNull (text "email");
  notNull (text "subject");
  notNull (text "message");
  default (Bool false) (boolean "isRead");
  defaultNow (timestamp "createdAt")
].

Definition messageReplies_columns : list Column := [
  primaryKey (serial "id");
  references messages "id" (integer "messageId");
  notNull (text "reply");
  default (Bool true) (boolean "isFromAdmin");
  defaultNow (timestamp "createdAt")
].

Definition columns (t : TableRef) : list Column :=
  match t with
  | siteConfig => siteConfig_columns
  | projects => projects_columns
  | products => products_columns
  | messages => messages_columns
  | messageReplies => messageReplies_columns
  end.

(** ** zod object schemas and drizzle-zod's [createInsertSchema] *)

Inductive ZType := ZString | ZNumber | ZBoolean | ZDate.

Record ZField := { ztype : ZType; zoptional : bool; znullable : bool }.

Abbreviation Schema := (list (string * ZField)).

Definition z_string : ZField :=
  {| ztype := ZString; zoptional := false; znullable := false |}.

Definition optional (f : ZField) : ZField :=
  {| ztype := ztype f; zoptional := true; znullable := znullable f |}.

Definition nullable (f : ZField) : ZField :=
  {| ztype := ztype f; zoptional := zoptional f; znullable := true |}.

Definition zod_of_coltype (t : ColType) : ZType :=
  match t with
  | CText => ZString
  | CSerial | CInteger => ZNumber
  | CBoolean => ZBoolean
  | CTimestamp => ZDate
  end.

Definition has_default (c : Column) : bool :=
  match cdefault c with NoDefault => false | _ => true end.

(** A nullable column gives a nullable optional field, a not-null column
    with a default an optional one, any other a required one. *)
Definition insert_field (c : Column) : ZField :=
  let base := {| ztype := zod_of_coltype (ctype c); zoptional := false;
                 znullable := false |} in
  if negb (cnotNull c) then optional (nullable base)
  else if has_default c then optional base
  else base.

Definition createInsertSchema (t : TableRef) : Schema :=
  (λ c, (cname c, insert_field c)) <$> columns t.

Definition omit (ks : list string) (s : Schema) : Schema :=
  filter (λ kf, kf.1 ∉ ks) s.

Fixpoint extend1 (k : string) (f : ZField) (s : Schema) : Schema :=
  match s with
  | [] => [(k, f)]
  | (k', f') :: s' =>
      if decide (k' = k) then (k, f) :: s' else (k', f') :: extend1 k f s'
  end.

(** [.extend(shape)]: a key of [shape] replaces the field of that name. *)
Definition extend (shape : Schema) (s : Schema) : Schema :=
  foldl (λ acc kf, extend1 kf.1 kf.2 acc) s shape.

Definition partial (s : Schema) : Schema :=
  (λ kf, (kf.1, optional kf.2)) <$> s.

Definition conforms (t : ZType) (v : Val) : bool :=
  match t, v with
  | ZString, Str _ | ZNumber, Num _ | ZBoolean, Bool _ | ZDate, Date _ => true
  | _, _ => false
  end.

(** One property: [None] when zod reports an issue, otherwise the parsed
    property ([Some None]: left out of the output). *)
Definition parse_field (f : ZField) (x : option Val) : option (option Val) :=
  match x with
  | None => if zoptional f then Some None else None
  | Some Null => if znullable f then Some (Some Null) else None
  | Some v => if conforms (ztype f) v then Some (Some v) else None
  end.

(** [schema.parse(input)]: every declared property is checked, undeclared
    ones are stripped, any issue throws. *)
Fixpoint parse (s : Schema) (input : Obj) : Result Obj :=
  match s with
  | [] => Ok ∅
  | (k, f) :: s' =>
      match parse_field f (input !! k), parse s' input with
      | Some r, Ok out =>
          Ok (match r with Some v => <[k:=v]> out | None => out end)
      | _, _ => Throw ZodError
      end
  end.

Definition insertSiteConfigSchema : Schema :=
  extend [
    ("heroTitle", optional z_string);
    ("heroDescription", optional z_string);
    ("aboutTitle", optional z_string);
    ("aboutDescription", optional z_string);
    ("logoUrl", optional z_string);
    ("faviconUrl", optional z_string);
    ("primaryColor", optional z_string);
    ("secondaryColor", optional z_string);
    ("accentColor", optional z_string);
    ("textColor", optional z_string);
    ("backgroundColor", optional z_string);
    ("fontFamily", optional z_string);
    ("email", optional z_string);
    ("phone", optional z_string);
    ("address", optional z_string);
    ("facebookUrl", optional z_string);
    ("twitterUrl", optional z_string);
    ("instagramUrl", optional z_string);
    ("linkedinUrl", optional z_string);
    ("siteTitle", optional z_string);
    ("seoDescription", optional z_string);
    ("seoKeywords", optional z_string);
    ("metaDescription", optional z_string);
    ("metaKeywords", optional z_string)
  ] (omit ["id"] (createInsertSchema siteConfig)).

Definition insertProjectSchema : Schema :=
  omit ["id"; "createdAt"] (createInsertSchema projects).

Definition insertProductSchema : Schema :=
  omit ["id"; "createdAt"] (createInsertSchema products).

Definition insertMessageSchema : Schema :=
  omit ["id"; "isRead"; "createdAt"] (createInsertSchema messages).

Definition insertMessageReplySchema : Schema :=
  omit ["id"; "createdAt"] (createInsertSchema messageReplies).

(** ** drizzle over PostgreSQL

    Storage code runs in a monad that threads the store and may throw. *)

Definition M (A : Type) : Type := Store → Store * Result A.

Definition ret {A} (a : A) : M A := λ st, (st, Ok a).

Definition bind {A B} (m : M A) (k : A → M B) : M B :=
  λ st, match m st with
        | (st', Ok a) => k a st'
        | (st', Throw e) => (st', Throw e)
        end.

Notation "x <- m ;; k" := (bind m (λ x, k))
  (at level 100, m at next level, right associativity).
Notation "m ;;; k" := (bind m (λ _, k))
  (at level 100, right associativity).

(** The value a column takes on insert: the supplied one, else its
    default, else NULL.  The second component is the sequence afterwards. *)
Definition fill_column (now : Z) (values : Obj) (c : Column) (sq : Z)
  : Val * Z :=
  match values !! cname c with
  | Some v => (v, sq)
  | None =>
      match cdefault c with
      | NoDefault => (Null, sq)
      | DefaultLit v => (v, sq)
      | DefaultNow => (Date now, sq)
      | DefaultNextval => (Num (sq + 1), sq + 1)
      end
  end.

Fixpoint fill_row (now : Z) (values : Obj) (cs : list Column) (sq : Z)
  : Obj * Z :=
  match cs with
  | [] => (∅, sq)
  | c :: cs' =>
      let '(v, sq1) := fill_column now values c sq in
      let '(row, sq2) := fill_row now values cs' sq1 in
      (<[cname c := v]> row, sq2)
  end.

Definition is_null (row : Obj) (k : string) : bool :=
  match row !! k with
  | Some Null | None => true
  | Some _ => false
  end.

(** SQL [col = x]: never true of NULL. *)
Definition eqCond (k : string) (x : Val) (row : Obj) : Prop :=
  row !! k = Some x ∧ x ≠ Null.

#[global] Instance eqCond_dec k x row : Decision (eqCond k x row).
Proof. unfold eqCond. apply _. Defined.

Definition notnull_ok (cs : list Column) (row : Obj) : bool :=
  forallb (λ c, negb (cnotNull c && is_null row (cname c))) cs.

Definition fk_column_ok (st : Store) (row : Obj) (c : Column) : bool :=
  match creferences c with
  | None => true
  | Some (t, k) =>
      match row !! cname c with
      | Some Null | None => true
      | Some v => bool_decide (Exists (eqCond k v) (rows (tget t st)))
      end
  end.

Definition fk_ok (st : Store) (cs : list Column) (row : Obj) : bool :=
  forallb (fk_column_ok st row) cs.

Definition check_row (st : Store) (cs : list Column) (row : Obj) : Result unit :=
  if negb (notnull_ok cs row) then Throw NotNullViolation
  else if negb (fk_ok st cs row) then Throw ForeignKeyViolation
  else Ok tt.

Fixpoint check_rows (st : Store) (cs : list Column) (l : list Obj) : Result unit :=
  match l with
  | [] => Ok tt
  | r :: l' =>
      match check_row st cs r with
      | Ok _ => check_rows st cs l'
      | Throw e => Throw e
      end
  end.

(** [db.insert(t).values(values).returning()], one row.  A value drawn
    from the sequence stays drawn when the insert is refused. *)
Definition db_insert (t : TableRef) (now : Z) (values : Obj) : M (list Obj) :=
  λ st,
    let tb := tget t st in
    let '(row, sq) := fill_row now values (columns t) (seq tb) in
    match check_row st (columns t) row with
    | Ok _ => (tset t {| rows := rows tb ++ [row]; seq := sq |} st, Ok [row])
    | Throw e => (tset t {| rows := rows tb; seq := sq |} st, Throw e)
    end.

(** A row under [SET values WHERE k = x]: a matching row takes the
    supplied values and keeps its others. *)
Definition set_row (values : Obj) (k : string) (x : Val) (r : Obj) : Obj :=
  if decide (eqCond k x r) then values ∪ r else r.

(** [db.update(t).set(values).where(eq(t.k, x)).returning()]: a set
    without any value is refused ([No values to set]); the rows as updated
    are checked and returned. *)
Definition db_update (t : TableRef) (values : Obj) (k : string) (x : Val)
  : M (list Obj) :=
  λ st,
    if decide (values = ∅) then (st, Throw NoValuesToSet)
    else
      let tb := tget t st in
      let updated := (λ r, values ∪ r) <$> filter (eqCond k x) (rows tb) in
      match check_rows st (columns t) updated with
      | Ok _ =>
          (tset t {| rows := set_row values k x <$> rows tb;
                     seq := seq tb |} st,
           Ok updated)
      | Throw e => (st, Throw e)
      end.

(** [db.delete(t).where(eq(t.k, x))]; the result is [rowCount]. *)
Definition db_delete (t : TableRef) (k : string) (x : Val) : M Z :=
  λ st,
    let tb := tget t st in
    (tset t {| rows := filter (λ r, ¬ eqCond k x r) (rows tb);
               seq := seq tb |} st,
     Ok (Z.of_nat (length (filter (eqCond k x) (rows tb))))).

Definition db_select (t : TableRef) : M (list Obj) :=
  λ st, (st, Ok (rows (tget t st))).

Definition where_eq (k : string) (x : Val) (l : list Obj) : list Obj :=
  filter (eqCond k x) l.

Definition limit (n : nat) (l : list Obj) : list Obj := take n l.

(** [ORDER BY createdAt] ascending: NULL sorts after every timestamp. *)
Definition createdAt (row : Obj) : option Z :=
  match row !! "createdAt" with
  | Some (Date t) => Some t
  | _ => None
  end.

Definition createdAt_le (r1 r2 : Obj) : Prop :=
  match createdAt r1, createdAt r2 with
  | Some a, Some b => a ≤ b
  | _, None => True
  | None, Some _ => False
  end.

#[global] Instance createdAt_le_dec r1 r2 : Decision (createdAt_le r1 r2).
Proof.
  unfold createdAt_le.
  destruct (createdAt r1), (createdAt r2); apply _.
Defined.

Definition orderBy_createdAt (l : list Obj) : list Obj :=
  merge_sort createdAt_le l.

(** [const [x] = rows; return x || undefined] *)
Definition first_row (l : list Obj) : option Obj := head l.

(** ** server/storage.ts: [DatabaseStorage]

    Methods that insert take the reading [now] of the database clock that
    [defaultNow()] will see.  The [users] table and its three methods are
    left out: no route reaches them. *)

Definition lift {A} (r : Result A) : M A := λ st, (st, r).

(* Site Config *)
Definition getSiteConfig : M (option Obj) :=
  l <- db_select siteConfig ;;
  ret (first_row (limit 1 l)).

Definition updateSiteConfig (now : Z) (config : Obj) : M (option Obj) :=
  existingConfig <- getSiteConfig ;;
  match existingConfig with
  | Some existing =>
      l <- db_update siteConfig config "id"
             (from_option id Null (existing !! "id")) ;;
      ret (first_row l)
  | None =>
      l <- db_insert siteConfig now config ;;
      ret (first_row l)
  end.

(* Projects *)
Definition getProjects : M (list Obj) :=
  l <- db_select projects ;;
  ret (orderBy_createdAt l).

Definition getProject (id : Z) : M (option Obj) :=
  l <- db_select projects ;;
  ret (first_row (where_eq "id" (Num id) l)).

Definition createProject (now : Z) (project : Obj) : M (option Obj) :=
  l <- db_insert projects now project ;;
  ret (first_row l).

Definition updateProject (id : Z) (project : Obj) : M (option Obj) :=
  l <- db_update projects project "id" (Num id) ;;
  ret (first_row l).

Definition deleteProject (id : Z) : M bool :=
  rowCount <- db_delete projects "id" (Num id) ;;
  ret (0 <? rowCount).

(* Products *)
Definition getProducts : M (list Obj) :=
  l <- db_select products ;;
  ret (orderBy_createdAt l).

Definition getProduct (id : Z) : M (option Obj) :=
  l <- db_select products ;;
  ret (first_row (where_eq "id" (Num id) l)).

Definition createProduct (now : Z) (product : Obj) : M (option Obj) :=
  l <- db_insert products now product ;;
  ret (first_row l).

Definition updateProduct (id : Z) (product : Obj) : M (option Obj) :=
  l <- db_update products product "id" (Num id) ;;
  ret (first_row l).

Definition deleteProduct (id : Z) : M bool :=
  rowCount <- db_delete products "id" (Num id) ;;
  ret (0 <? rowCount).

(* Messages *)
Definition getMessages : M (list Obj) :=
  l <- db_select messages ;;
  ret (orderBy_createdAt l).

Definition getMessage (id : Z) : M (option Obj) :=
  l <- db_select messages ;;
  ret (first_row (where_eq "id" (Num id) l)).

Definition createMessage (now : Z) (message : Obj) : M (option Obj) :=
  l <- db_insert messages now message ;;
  ret (first_row l).

Definition markMessageAsRead (id : Z) : M bool :=
  l <- db_update messages {[ "isRead" := Bool true ]} "id" (Num id) ;;
  ret (0 <? Z.of_nat (length l)).

(* Message Replies *)
Definition getMessageReplies (messageId : Z) : M (list Obj) :=
  l <- db_select messageReplies ;;
  ret (orderBy_createdAt (where_eq "messageId" (Num messageId) l)).

Definition createMessageReply (now : Z) (reply : Obj) : M (option Obj) :=
  l <- db_insert messageReplies now reply ;;
  ret (first_row l).

(** [for (const x of xs) await f(x)], the callback also told the position
    of [x], from which the seeding takes its clock reading. *)
Fixpoint for_each_from {A B} (i : nat) (xs : list A) (f : nat → A → M B)
  : M unit :=
  match xs with
  | [] => ret tt
  | x :: xs' => f i x ;;; for_each_from (S i) xs' f
  end.

Definition defaultConfig : Obj :=
  list_to_map [
    ("companyName", Str "Voorbeeld Bedrijf BV");
    ("heroTitle", Str "Welkom bij Voorbeeld Bedrijf BV");
    ("heroDescription", Str "Wij leveren professionele diensten en hoogwaardige producten die uw verwachtingen overtreffen.");
    ("aboutTitle", Str "Over Ons");
    ("aboutDescription", Str "Met meer dan 10 jaar ervaring in de branche, zijn wij uw betrouwbare partner voor innovatieve oplossingen. Ons toegewijde team van experts werkt samen om uw visie werkelijkheid te maken en uw bedrijfsdoelen te overtreffen.");
    ("primaryColor", Str "#2563eb");
    ("email", Str "info@voorbeeldbedrijf.nl");
    ("phone", Str "+31 20 123 4567");
    ("address", Str "Hoofdstraat 123, 1234 AB Amsterdam");
    ("metaDescription", Str "Voorbeeld Bedrijf BV - Professionele diensten en hoogwaardige producten. Meer dan 10 jaar ervaring in innovatieve oplossingen.");
    ("metaKeywords", Str "professionele diensten, hoogwaardige producten, innovatieve oplossingen, betrouwbare partner")
  ].

Definition demoProjects : list Obj := [
  list_to_map [
    ("title", Str "Modern Kantoorgebouw Amsterdam");
    ("description", Str "Ontwerp en realisatie van een modern kantoorgebouw met duurzame materialen en energy-efficient systemen.");
    ("category", Str "architectuur");
    ("status", Str "completed");
    ("imageUrl", Str "https://images.unsplash.com/photo-1486406146926-c627a92ad1ab?w=800&h=600&fit=crop")
  ];
  list_to_map [
    ("title", Str "Luxe Woonhuis Interieur");
    ("description", Str "Complete interieurinrichting van een luxe woonhuis met moderne elementen en klassieke accenten.");
    ("category", Str "interieur");
    ("status", Str "completed");
    ("imageUrl", Str "https://images.unsplash.com/photo-1586023492125-27b2c045efd7?w=800&h=600&fit=crop")
  ];
  list_to_map [
    ("title", Str "E-commerce Platform");
    ("description", Str "Ontwikkeling van een volledig responsive e-commerce platform met moderne technologieën.");
    ("category", Str "web");
    ("status", Str "progress");
    ("imageUrl", Str "https://images.unsplash.com/photo-1460925895917-afdab827c52f?w=800&h=600&fit=crop")
  ]
].

Definition demoProducts : list Obj := [
  list_to_map [
    ("title", Str "Premium Consultancy Pakket");
    ("description", Str "Uitgebreide consultancy diensten voor uw project van start tot finish.");
    ("price", Str "€2.500");
    ("status", Str "active");
    ("imageUrl", Str "https://images.unsplash.com/photo-1552664730-d307ca884978?w=800&h=600&fit=crop")
  ];
  list_to_map [
    ("title", Str "Design Workshop");
    ("description", Str "Interactieve workshop over modern design principes en trends.");
    ("price", Str "€450");
    ("status", Str "active");
    ("imageUrl", Str "https://images.unsplash.com/photo-1542744173-8e7e53415bb0?w=800&h=600&fit=crop")
  ];
  list_to_map [
    ("title", Str "Digitale Strategie Audit");
    ("description", Str "Complete audit van uw huidige digitale strategie met concrete verbetervoorstellen.");
    ("price", Str "€1.200");
    ("status", Str "active");
    ("imageUrl", Str "https://images.unsplash.com/photo-1551288049-bebda4e38f71?w=800&h=600&fit=crop")
  ]
].

(** The seeding that the constructor starts, run to its end.  [clock i]
    is the database time at the [i]-th insert.  The properties that the
    source spells out as [undefined] are absent from [defaultConfig]. *)
Definition initializeDefaults (clock : nat → Z) : M unit :=
  existingConfig <- getSiteConfig ;;
  match existingConfig with
  | None => _ <- updateSiteConfig (clock 0%nat) defaultConfig ;; ret tt
  | Some _ => ret tt
  end ;;;
  existingProjects <- getProjects ;;
  (if decide (length existingProjects = 0%nat)
   then for_each_from 1 demoProjects (λ i project, createProject (clock i) project)
   else ret tt) ;;;
  existingProducts <- getProducts ;;
  (if decide (length existingProducts = 0%nat)
   then for_each_from 4 demoProducts (λ i product, createProduct (clock i) product)
   else ret tt).

(** ** server/routes.ts *)

Inductive Body :=
| Json (row : option Obj)          (* res.json(x); [None]: x was undefined *)
| JsonList (l : list Obj)
| JsonMessage (message : string).

(** What a route leaves behind: a response, or an error handed to
    Express's [next] by a middleware, in which case the route's handler is
    never entered and the answer is up to the application's error handler,
    which [registerRoutes] does not install. *)
Inductive Outcome :=
| Respond (status : Z) (body : Body)
| NextError (e : Err).

Abbreviation Handler := (Store → Store * Outcome).

(** [try { ... } catch (error) { res.status(s).json({ message }) }] *)
Definition try_catch (m : M Outcome) (s : Z) (message : string) : Handler :=
  λ st, match m st with
        | (st', Ok o) => (st', o)
        | (st', Throw _) => (st', Respond s (JsonMessage message))
        end.

Definition res_json (row : option Obj) : Outcome := Respond 200 (Json row).
Definition res_json_list (l : list Obj) : Outcome := Respond 200 (JsonList l).
Definition res_message (s : Z) (message : string) : Outcome :=
  Respond s (JsonMessage message).

(** The uploaded file as multer sees it; [filename] is the name multer
    generates for the stored copy. *)
Record File := { mimetype : string; size : Z; filename : string }.

Definition fileSize : Z := 5 * 1024 * 1024.

Definition fileFilter (file : File) : Result bool :=
  if String.prefix "image/" (mimetype file) then Ok true
  else Throw OnlyImageFilesAllowed.

(** [upload.single('image')]: the filter sees the file first, the size
    limit cuts it off while it streams in.  An error goes to [next]. *)
Definition upload_single (file : option File) : Result (option File) :=
  match file with
  | None => Ok None
  | Some f =>
      match fileFilter f with
      | Throw e => Throw e
      | Ok false => Ok None
      | Ok true => if fileSize <? size f then Throw LIMIT_FILE_SIZE else Ok (Some f)
      end
  end.

Definition with_upload (file : option File) (h : option File → Handler)
  : Handler :=
  λ st, match upload_single file with
        | Ok f => h f st
        | Throw e => (st, NextError e)
        end.

(** [if (req.file) data.imageUrl = `/uploads/${req.file.filename}`] *)
Definition add_image_url (file : option File) (data : Obj) : Obj :=
  match file with
  | Some f => <["imageUrl" := Str ("/uploads/" +:+ filename f)]> data
  | None => data
  end.

(* Site Configuration *)
Definition get_config : Handler :=
  try_catch
    (config <- getSiteConfig ;;
     ret (res_json config))
    500 "Failed to fetch site configuration".

Definition put_config (now : Z) (body : Obj) : Handler :=
  try_catch
    (validatedConfig <- lift (parse insertSiteConfigSchema body) ;;
     config <- updateSiteConfig now validatedConfig ;;
     ret (res_json config))
    400 "Invalid configuration data".

(* Projects *)
Definition get_projects : Handler :=
  try_catch
    (l <- getProjects ;;
     ret (res_json_list l))
    500 "Failed to fetch projects".

Definition get_project (id : Z) : Handler :=
  try_catch
    (project <- getProject id ;;
     match project with
     | None => ret (res_message 404 "Project not found")
     | Some _ => ret (res_json project)
     end)
    500 "Failed to fetch project".

Definition post_project (now : Z) (body : Obj) (file : option File) : Handler :=
  with_upload file (λ req_file,
    try_catch
      (projectData <- lift (parse insertProjectSchema body) ;;
       project <- createProject now (add_image_url req_file projectData) ;;
       ret (res_json project))
      400 "Invalid project data").

Definition put_project (id : Z) (body : Obj) (file : option File) : Handler :=
  with_upload file (λ req_file,
    try_catch
      (projectData <- lift (parse (partial insertProjectSchema) body) ;;
       project <- updateProject id (add_image_url req_file projectData) ;;
       match project with
       | None => ret (res_message 404 "Project not found")
       | Some _ => ret (res_json project)
       end)
      400 "Invalid project data").

Definition delete_project (id : Z) : Handler :=
  try_catch
    (deleted <- deleteProject id ;;
     if negb deleted then ret (res_message 404 "Project not found")
     else ret (res_message 200 "Project deleted successfully"))
    500 "Failed to delete project".

(* Products *)
Definition get_products : Handler :=
  try_catch
    (l <- getProducts ;;
     ret (res_json_list l))
    500 "Failed to fetch products".

Definition get_product (id : Z) : Handler :=
  try_catch
    (product <- getProduct id ;;
     match product with
     | None => ret (res_message 404 "Product not found")
     | Some _ => ret (res_json product)
     end)
    500 "Failed to fetch product".

Definition post_product (now : Z) (body : Obj) (file : option File) : Handler :=
  with_upload file (λ req_file,
    try_catch
      (productData <- lift (parse insertProductSchema body) ;;
       product <- createProduct now (add_image_url req_file productData) ;;
       ret (res_json product))
      400 "Invalid product data").

Definition put_product (id : Z) (body : Obj) (file : option File) : Handler :=
  with_upload file (λ req_file,
    try_catch
      (productData <- lift (parse (partial insertProductSchema) body) ;;
       product <- updateProduct id (add_image_url req_file productData) ;;
       match product with
       | None => ret (res_message 404 "Product not found")
       | Some _ => ret (res_json product)
       end)
      400 "Invalid product data").

Definition delete_product (id : Z) : Handler :=
  try_catch
    (deleted <- deleteProduct id ;;
     if negb deleted then ret (res_message 404 "Product not found")
     else ret (res_message 200 "Product deleted successfully"))
    500 "Failed to delete product".

(* Messages *)
Definition get_messages : Handler :=
  try_catch
    (l <- getMessages ;;
     ret (res_json_list l))
    500 "Failed to fetch messages".

Definition get_message (id : Z) : Handler :=
  try_catch
    (message <- getMessage id ;;
     match message with
     | None => ret (res_message 404 "Message not found")
     | Some _ => ret (res_json message)
     end)
    500 "Failed to fetch message".

Definition post_message (now : Z) (body : Obj) : Handler :=
  try_catch
    (messageData <- lift (parse insertMessageSchema body) ;;
     message <- createMessage now messageData ;;
     ret (res_json message))
    400 "Invalid message data".

Definition put_message_read (id : Z) : Handler :=
  try_catch
    (marked <- markMessageAsRead id ;;
     if negb marked then ret (res_message 404 "Message not found")
     else ret (res_message 200 "Message marked as read"))
    500 "Failed to mark message as read".

(* Message Replies *)
Definition get_message_replies (id : Z) : Handler :=
  try_catch
    (replies <- getMessageReplies id ;;
     ret (res_json_list replies))
    500 "Failed to fetch message replies".

Definition post_message_reply (now : Z) (id : Z) (body : Obj) : Handler :=
  try_catch
    (replyData <- lift (parse insertMessageReplySchema
                          (<["messageId" := Num id]> body)) ;;
     reply <- createMessageReply now replyData ;;
     ret (res_json reply))
    400 "Invalid reply data".

(** A request as [registerRoutes] dispatches it.  [:id] is the integer
    that [parseInt(req.params.id)] yields; [body] is [req.body], [file] the
    file part sent under the field [image], if any. *)
Inductive Request :=
| GET_config
| PUT_config (body : Obj)
| GET_projects
| GET_project (id : Z)
| POST_project (body : Obj) (file : option File)
| PUT_project (id : Z) (body : Obj) (file : option File)
| DELETE_project (id : Z)
| GET_products
| GET_product (id : Z)
| POST_product (body : Obj) (file : option File)
| PUT_product (id : Z) (body : Obj) (file : option File)
| DELETE_product (id : Z)
| GET_messages
| GET_message (id : Z)
| POST_message (body : Obj)
| PUT_message_read (id : Z)
| GET_message_replies (id : Z)
| POST_message_reply (id : Z) (body : Obj).

Definition handle (now : Z) (req : Request) : Handler :=
  match req with
  | GET_config => get_config
  | PUT_config body => put_config now body
  | GET_projects => get_projects
  | GET_project id => get_project id
  | POST_project body file => post_project now body file
  | PUT_project id body file => put_project id body file
  | DELETE_project id => delete_project id
  | GET_products => get_products
  | GET_product id => get_product id
  | POST_product body file => post_product now body file
  | PUT_product id body file => put_product id body file
  | DELETE_product id => delete_product id
  | GET_messages => get_messages
  | GET_message id => get_message id
  | POST_message body => post_message now body
  | PUT_message_read id => put_message_read id
  | GET_message_replies id => get_message_replies id
  | POST_message_reply id body => post_message_reply now id body
  end.

(** The states the database can be in: empty at first; the server seeds
    it at every start, and handles one request after another. *)
Inductive reachable : Store → Prop :=
| reach_empty :
    reachable emptyStore
| reach_boot st clock :
    reachable st → reachable (initializeDefaults clock st).1
| reach_step st now req :
    reachable st → reachable (handle now req st).1.

(** ** Well-formed stores

    What PostgreSQL maintains for the schema, and the one-row discipline of
    [site_config] that the storage layer maintains itself. *)

Definition row_ok (st : Store) (t : TableRef) (r : Obj) : bool :=
  notnull_ok (columns t) r && fk_ok st (columns t) r.

Definition table_ok (st : Store) (t : TableRef) : bool :=
  forallb (row_ok st t) (rows (tget t st)).

Definition all_tables : list TableRef :=
  [siteConfig; projects; products; messages; messageReplies].

Definition store_ok (st : Store) : bool :=
  bool_decide (length (rows (tbl_site_config st)) ≤ 1)%nat
  && forallb (table_ok st) all_tables.

(** No row of [t] carries the identifier [id]. *)
Definition no_row (t : TableRef) (id : Z) (st : Store) : bool :=
  bool_decide (where_eq "id" (Num id) (rows (tget t st)) = []).

Definition has_row (t : TableRef) (id : Z) (st : Store) : bool :=
  negb (no_row t id st).

Definition status_of (o : Outcome) : option Z :=
  match o with
  | Respond s _ => Some s
  | NextError _ => None
  end.

(** A store to run examples on: seeded at time 1000, 1001, ... *)
Definition seeded : Store :=
  (initializeDefaults (λ i, 1000 + Z.of_nat i) emptyStore).1.

(** The only foreign key points at [messages.id]: a change of the store
    that keeps every message identifier keeps every row's references. *)
Definition refs_preserved (st st' : Store) : Prop :=
  ∀ v, Exists (eqCond "id" v) (rows (tbl_messages st)) →
       Exists (eqCond "id" v) (rows (tbl_messages st')).

(** A computation that keeps the store well-formed, also when it throws. *)
Definition preserves {A} (m : M A) : Prop :=
  ∀ st, store_ok st = true → store_ok (m st).1 = true.

(** A computation that leaves the table [t] as it is. *)
Definition keeps {A} (t : TableRef) (m : M A) : Prop :=
  ∀ st, tget t (m st).1 = tget t st.




(** Stores to run examples on: [seeded] after one contact message, and
    after two projects created out of time order. *)
Definition with_message : Store :=
  (post_message 1500
     {[ "name" := Str "Jan"; "email" := Str "jan@x.nl";
        "subject" := Str "Vraag"; "message" := Str "Hallo" ]} seeded).1.

Definition two_projects : Store :=
  (post_project 20 {[ "title" := Str "later"; "description" := Str "d";
                      "category" := Str "c" ]} None
     (post_project 30 {[ "title" := Str "latest"; "description" := Str "d";
                         "category" := Str "c" ]} None
        (post_project 10 {[ "title" := Str "first"; "description" := Str "d";
                            "category" := Str "c" ]} None emptyStore).1).1).1.



(** ** What one request does to the store

    Every write of the storage layer is one of four statements on one
    table: an insert that appends a row under the next identifier, an
    insert that is refused after drawing its identifier, an update that
    sets neither [id] nor [createdAt], or a delete on projects or
    products. *)

Definition row_id (r : Obj) : option Z :=
  match r !! "id" with
  | Some (Num n) => Some n
  | _ => None
  end.

Inductive effect (st : Store) : Store → Prop :=
| eff_none :
    effect st st
| eff_insert t row :
    row_id row = Some (seq (tget t st) + 1) →
    effect st (tset t {| rows := rows (tget t st) ++ [row];
                         seq := seq (tget t st) + 1 |} st)
| eff_refused t :
    effect st (tset t {| rows := rows (tget t st);
                         seq := seq (tget t st) + 1 |} st)
| eff_update t values k x :
    t ≠ messageReplies →
    values !! "id" = None → values !! "createdAt" = None →
    effect st (tset t {| rows := set_row values k x <$> rows (tget t st);
                         seq := seq (tget t st) |} st)
| eff_delete t k x :
    t = projects ∨ t = products →
    effect st (tset t {| rows := filter (λ r, ¬ eqCond k x r) (rows (tget t st));
                         seq := seq (tget t st) |} st).

Definition effectful {A} (m : M A) : Prop :=
  ∀ st, effect st (m st).1.

Definition effectful_star {A} (m : M A) : Prop :=
  ∀ st, rtc effect st (m st).1.

Definition is_nextval (c : Column) : bool :=
  match cdefault c with
  | DefaultNextval => true
  | _ => false
  end.

(** Identifiers of a table: integers, none above the sequence, no two
    alike. *)
Definition id_bounded (tb : Table) (r : Obj) : bool :=
  match row_id r with
  | Some n => bool_decide (n ≤ seq tb)
  | None => false
  end.

Definition table_ids_ok (tb : Table) : bool :=
  forallb (id_bounded tb) (rows tb) && bool_decide (NoDup (row_id <$> rows tb)).

Definition ids_ok (st : Store) : bool :=
  forallb (λ t, table_ids_ok (tget t st)) all_tables.


(** ** The [users] table and its three storage methods

    No route reaches them, so the table is kept apart from the store of
    the routes.  [username] carries the one unique constraint of the
    schema. *)
Module Users.








End Users.

(** * Properties *)

(** ** The monad *)

Lemma bind_ok {A B} (m : M A) (k : A → M B) st st' a :
  m st = (st', Ok a) → bind m k st = k a st'.
Proof. unfold bind. by intros ->. Qed.

(** ** zod *)

Lemma parse_field_Some f x r :
  parse_field f x = Some r → r = x.
Proof.
  unfold parse_field. destruct x as [v|].
  - destruct v; repeat case_match; congruence.
  - case_match; congruence.
Qed.

Lemma parse_lookup s input out k :
  parse s input = Ok out →
  out !! k = if decide (k ∈ s.*1) then input !! k else None.
Proof.
  revert out. induction s as [|[k' f] s IH]; intros out H; simpl in H.
  - inversion H. rewrite lookup_empty.
    destruct (decide _) as [Hin|]; [set_solver|done].
  - destruct (parse_field f (input !! k')) as [r|] eqn:Hf; [|discriminate].
    destruct (parse s input) as [out'|] eqn:Hp; [|discriminate].
    inversion H; subst out; clear H.
    apply parse_field_Some in Hf. specialize (IH out' eq_refl).
    destruct (decide (k = k')) as [->|Hne].
    + rewrite decide_True by set_solver.
      destruct r as [v|]; subst.
      * by rewrite lookup_insert_eq.
      * rewrite IH. by case_decide.
    + assert (out' !! k = match r with
                          | Some v => <[k':=v]> out'
                          | None => out' end !! k) as <-.
      { destruct r; [by rewrite lookup_insert_ne|done]. }
      rewrite IH. rewrite fmap_cons. cbn [fst].
      destruct (decide (k ∈ s.*1)) as [H1|H1],
                 (decide (k ∈ k' :: s.*1)) as [H2|H2]; try done.
      * destruct H2. by apply elem_of_cons; right.
      * apply elem_of_cons in H2 as [?|?]; done.
Qed.



(** ** Rows *)

Lemma fill_row_supplied now values cs sq k v :
  k ∈ cname <$> cs → values !! k = Some v →
  (fill_row now values cs sq).1 !! k = Some v.
Proof.
  revert sq. induction cs as [|c cs IH]; intros sq Hin Hv.
  - by apply elem_of_nil in Hin.
  - cbn [fill_row].
    destruct (fill_column now values c sq) as [v1 sq1] eqn:Hc.
    destruct (fill_row now values cs sq1) as [row sq2] eqn:Hr. cbn [fst].
    destruct (decide (cname c = k)) as [<-|Hne].
    + rewrite lookup_insert_eq. unfold fill_column in Hc.
      rewrite Hv in Hc. congruence.
    + rewrite lookup_insert_ne by done.
      rewrite fmap_cons in Hin. apply elem_of_cons in Hin as [?|Hin]; [done|].
      specialize (IH sq1 Hin Hv). by rewrite Hr in IH.
Qed.


Lemma is_null_false row k :
  is_null row k = false ↔ ∃ v, row !! k = Some v ∧ v ≠ Null.
Proof.
  unfold is_null. destruct (row !! k) as [[]|]; split;
    try discriminate; try (intros _; eauto; fail);
    intros (v & Hv & Hn); congruence.
Qed.

Lemma notnull_ok_spec cs row :
  notnull_ok cs row = true ↔
  ∀ c, c ∈ cs → cnotNull c = true → ∃ v, row !! cname c = Some v ∧ v ≠ Null.
Proof.
  unfold notnull_ok. rewrite forallb_forall. split.
  - intros H c Hin Hn. apply list_elem_of_In, H in Hin.
    rewrite Hn in Hin. apply is_null_false. by destruct (is_null _ _).
  - intros H c Hin. destruct (cnotNull c) eqn:Hn; [|done].
    apply list_elem_of_In in Hin. apply (H c Hin), is_null_false in Hn.
    by rewrite Hn.
Qed.

(** Setting values that are not null on not-null columns keeps a row
    within the not-null constraints. *)
Lemma notnull_ok_union cs values row :
  notnull_ok cs row = true →
  (∀ c v, c ∈ cs → cnotNull c = true → values !! cname c = Some v → v ≠ Null) →
  notnull_ok cs (values ∪ row) = true.
Proof.
  rewrite !notnull_ok_spec. intros Hrow Hval c Hin Hn.
  destruct (values !! cname c) as [v|] eqn:Hv.
  - exists v. split; [by apply lookup_union_Some_l|eauto].
  - destruct (Hrow c Hin Hn) as (v & Hr & Hnn). exists v. split; [|done].
    by rewrite lookup_union_r.
Qed.

Lemma check_row_ok st t r :
  check_row st (columns t) r = Ok tt ↔ row_ok st t r = true.
Proof.
  unfold check_row, row_ok.
  destruct (notnull_ok _ _), (fk_ok _ _ _); simpl; split; congruence.
Qed.

Lemma check_rows_ok st t l :
  check_rows st (columns t) l = Ok tt ↔ Forall (λ r, row_ok st t r = true) l.
Proof.
  induction l as [|r l IH]; simpl.
  - split; [constructor|done].
  - destruct (check_row st (columns t) r) as [[]|e] eqn:Hc.
    + apply check_row_ok in Hc. rewrite IH, Forall_cons. tauto.
    + split; [discriminate|]. intros H. apply Forall_cons in H as [H _].
      apply check_row_ok in H. congruence.
Qed.

(** ** The store and its invariant *)

Lemma tget_tset_eq t tb st : tget t (tset t tb st) = tb.
Proof. by destruct t. Qed.

Lemma tget_tset_ne t t' tb st : t ≠ t' → tget t' (tset t tb st) = tget t' st.
Proof. by destruct t, t'. Qed.

Lemma tset_tget t st : tset t (tget t st) st = st.
Proof. by destruct t, st. Qed.

Lemma store_ok_spec st :
  store_ok st = true ↔
  (length (rows (tbl_site_config st)) ≤ 1)%nat ∧
  ∀ t r, r ∈ rows (tget t st) → row_ok st t r = true.
Proof.
  unfold store_ok. rewrite andb_true_iff, bool_decide_eq_true.
  apply and_iff_compat_l. unfold all_tables, table_ok. cbn [forallb].
  rewrite !andb_true_iff, !forallb_forall. split.
  - intros (H1 & H2 & H3 & H4 & H5 & _) t r Hr.
    apply list_elem_of_In in Hr. destruct t; auto.
  - intros H. repeat split; intros r Hr; apply list_elem_of_In in Hr;
      by apply H.
Qed.

Lemma fk_ok_mono st st' t r :
  refs_preserved st st' →
  fk_ok st (columns t) r = true → fk_ok st' (columns t) r = true.
Proof.
  intros Hp. destruct t; try done.
  unfold fk_ok. cbn. rewrite !andb_true_r.
  destruct (r !! "messageId") as [[]|]; try done;
    rewrite !bool_decide_eq_true; apply Hp.
Qed.

Lemma row_ok_mono st st' t r :
  refs_preserved st st' → row_ok st t r = true → row_ok st' t r = true.
Proof.
  unfold row_ok. rewrite !andb_true_iff. intros Hp [? ?].
  eauto using fk_ok_mono.
Qed.

Lemma refs_preserved_tset t tb st :
  (t = messages → ∀ v, Exists (eqCond "id" v) (rows (tbl_messages st)) →
                       Exists (eqCond "id" v) (rows tb)) →
  refs_preserved st (tset t tb st).
Proof. intros H v Hv. destruct t; try done. cbn. by apply H. Qed.

Lemma store_ok_tset t tb st :
  store_ok st = true →
  refs_preserved st (tset t tb st) →
  (∀ r, r ∈ rows tb → row_ok (tset t tb st) t r = true) →
  (t = siteConfig → (length (rows tb) ≤ 1)%nat) →
  store_ok (tset t tb st) = true.
Proof.
  rewrite !store_ok_spec. intros [Hlen Hrows] Hp Hnew Hone. split.
  - destruct t; try done. by apply Hone.
  - intros t' r Hr. destruct (decide (t = t')) as [<-|Hne].
    + rewrite tget_tset_eq in Hr. auto.
    + rewrite tget_tset_ne in Hr by done. eauto using row_ok_mono.
Qed.

(** Insert, update and delete keep the store well-formed. *)
Lemma db_insert_store_ok t now values st :
  store_ok st = true →
  (t = siteConfig → rows (tbl_site_config st) = []) →
  store_ok (db_insert t now values st).1 = true.
Proof.
  intros Hok Hcfg. unfold db_insert.
  destruct (fill_row now values (columns t) (seq (tget t st))) as [row sq].
  pose proof Hok as [Hlen Hrows]%store_ok_spec.
  destruct (check_row st (columns t) row) as [[]|e] eqn:Hc; cbn [fst].
  - apply check_row_ok in Hc.
    assert (refs_preserved st
              (tset t {| rows := rows (tget t st) ++ [row]; seq := sq |} st)).
    { apply refs_preserved_tset. intros -> v Hv. cbn.
      apply Exists_app. by left. }
    apply store_ok_tset; try done; cbn [rows].
    + intros r [Hr| ->%list_elem_of_singleton]%elem_of_app;
        eauto using row_ok_mono.
    + intros ->. cbn in *. rewrite Hcfg; [|done]. cbn. lia.
  - assert (refs_preserved st
              (tset t {| rows := rows (tget t st); seq := sq |} st)).
    { apply refs_preserved_tset. by intros -> v Hv. }
    apply store_ok_tset; try done; cbn [rows].
    + eauto using row_ok_mono.
    + by intros ->.
Qed.

Lemma eqCond_union_other k x values r :
  values !! k = None → eqCond k x (values ∪ r) ↔ eqCond k x r.
Proof. intros Hk. unfold eqCond. by rewrite lookup_union_r. Qed.

Lemma db_update_store_ok t values k x st :
  store_ok st = true →
  (t = messages → values !! "id" = None) →
  store_ok (db_update t values k x st).1 = true.
Proof.
  intros Hok Hid. unfold db_update.
  destruct (decide (values = ∅)); [done|].
  pose proof Hok as [Hlen Hrows]%store_ok_spec.
  set (upd := (λ r, values ∪ r) <$> filter (eqCond k x) (rows (tget t st))).
  destruct (check_rows st (columns t) upd) as [[]|e] eqn:Hc; [|done].
  apply check_rows_ok in Hc. rewrite Forall_forall in Hc. cbn [fst].
  set (tb := {| rows := _; seq := _ |}).
  assert (refs_preserved st (tset t tb st)) as Hp.
  { apply refs_preserved_tset. intros -> v Hv. cbn in *.
    apply Exists_fmap. eapply Exists_impl; [done|].
    intros r Hr. cbn. unfold set_row. case_decide; [|done].
    by apply eqCond_union_other; auto. }
  apply store_ok_tset; try done; subst tb; cbn [rows].
  - intros r' (r & -> & Hr)%list_elem_of_fmap.
    eapply row_ok_mono; [done|]. unfold set_row. case_decide; [|by auto].
    apply Hc. subst upd. apply list_elem_of_fmap_2.
    by apply list_elem_of_filter.
  - intros ->. by rewrite length_fmap.
Qed.

Lemma db_delete_store_ok t k x st :
  store_ok st = true → t ≠ messages →
  store_ok (db_delete t k x st).1 = true.
Proof.
  intros Hok Hne. unfold db_delete. cbn [fst].
  pose proof Hok as [Hlen Hrows]%store_ok_spec.
  set (tb := {| rows := _; seq := _ |}).
  assert (refs_preserved st (tset t tb st)) as Hp.
  { by apply refs_preserved_tset. }
  apply store_ok_tset; try done; subst tb; cbn [rows].
  - intros r [_ Hr]%list_elem_of_filter. eauto using row_ok_mono.
  - intros ->. cbn in *. etrans; [apply length_filter|done].
Qed.

Lemma preserves_ret {A} (a : A) : preserves (ret a).
Proof. by intros st. Qed.

Lemma preserves_lift {A} (r : Result A) : preserves (lift r).
Proof. by intros st. Qed.

Lemma preserves_bind {A B} (m : M A) (k : A → M B) :
  preserves m → (∀ a, preserves (k a)) → preserves (bind m k).
Proof.
  intros Hm Hk st Hok. unfold bind. specialize (Hm st Hok).
  destruct (m st) as [st' [a|e]]; [by apply Hk|done].
Qed.

Lemma preserves_select t : preserves (db_select t).
Proof. by intros st. Qed.

Lemma preserves_insert t now values :
  t ≠ siteConfig → preserves (db_insert t now values).
Proof. intros Hne st Hok. by apply db_insert_store_ok. Qed.

Lemma preserves_update t values k x :
  (t = messages → values !! "id" = None) → preserves (db_update t values k x).
Proof. intros Hid st Hok. by apply db_update_store_ok. Qed.

Lemma preserves_delete t k x : t ≠ messages → preserves (db_delete t k x).
Proof. intros Hne st Hok. by apply db_delete_store_ok. Qed.


Lemma getSiteConfig_eq st :
  getSiteConfig st = (st, Ok (head (rows (tbl_site_config st)))).
Proof.
  unfold getSiteConfig, bind, db_select, ret, first_row, limit. cbn.
  by destruct (rows (tbl_site_config st)).
Qed.

Lemma preserves_updateSiteConfig now config :
  preserves (updateSiteConfig now config).
Proof.
  intros st Hok. unfold updateSiteConfig.
  rewrite (bind_ok _ _ _ _ _ (getSiteConfig_eq st)).
  destruct (rows (tbl_site_config st)) as [|existing l] eqn:Hrows; cbn [head].
  - unfold bind.
    pose proof (db_insert_store_ok siteConfig now config st Hok (λ _, Hrows)).
    by destruct (db_insert siteConfig now config st) as [st' [l'|e]].
  - unfold bind.
    pose proof (db_update_store_ok siteConfig config "id"
                  (from_option id Null (existing !! "id")) st Hok) as H.
    destruct (db_update siteConfig config "id" _ st) as [st' [l'|e]];
      by apply H.
Qed.




(** Tactic for the storage calls of a handler: each is a bind of database
    operations, reads, [lift] and [ret]. *)
Ltac preserves_tac :=
  repeat first
    [ apply preserves_ret
    | apply preserves_lift
    | apply preserves_select
    | apply preserves_updateSiteConfig
    | apply preserves_insert; discriminate
    | apply preserves_delete; discriminate
    | apply preserves_update; first [discriminate | intros _; reflexivity]
    | apply preserves_bind; [|intros ?]
    | progress case_match ].



(** ** Listing in creation order *)

#[global] Instance createdAt_le_total : Total createdAt_le.
Proof.
  intros r1 r2. unfold createdAt_le.
  destruct (createdAt r1), (createdAt r2); auto. lia.
Qed.

#[global] Instance createdAt_le_trans : Transitive createdAt_le.
Proof.
  intros r1 r2 r3. unfold createdAt_le.
  destruct (createdAt r1), (createdAt r2), (createdAt r3); auto; try done.
  lia.
Qed.

Lemma StronglySorted_lookup_lt {A} (R : relation A) l i j x y :
  StronglySorted R l → (i < j)%nat →
  l !! i = Some x → l !! j = Some y → R x y.
Proof.
  intros H. revert i j.
  induction H as [|a l Hs IH Hall]; intros i j Hij Hi Hj; [done|].
  destruct j as [|j]; [lia|]. destruct i as [|i]; cbn in Hi, Hj.
  - inversion Hi; subst. rewrite Forall_forall in Hall.
    apply Hall. by eapply list_elem_of_lookup_2.
  - apply (IH i j); [lia|done..].
Qed.

Lemma orderBy_createdAt_spec l :
  orderBy_createdAt l ≡ₚ l ∧
  ∀ i j ri rj, (i < j)%nat →
    orderBy_createdAt l !! i = Some ri → orderBy_createdAt l !! j = Some rj →
    createdAt_le ri rj.
Proof.
  split; [apply merge_sort_Permutation|].
  intros i j ri rj. apply StronglySorted_lookup_lt.
  apply StronglySorted_merge_sort; apply _.
Qed.

(** C3. [GET /api/projects] and [GET /api/products] answer 200 with the
    stored rows, all of them, in ascending order of creation timestamp:
    whatever the table holds, hence whatever the order of the insertions
    that filled it, a row listed earlier was not created later. *)
Theorem get_projects_products_ascending (st : Store) :
  (∃ l, get_projects st = (st, Respond 200 (JsonList l)) ∧
        l ≡ₚ rows (tbl_projects st) ∧
        ∀ i j ri rj, (i < j)%nat → l !! i = Some ri → l !! j = Some rj →
                     createdAt_le ri rj) ∧
  (∃ l, get_products st = (st, Respond 200 (JsonList l)) ∧
        l ≡ₚ rows (tbl_products st) ∧
        ∀ i j ri rj, (i < j)%nat → l !! i = Some ri → l !! j = Some rj →
                     createdAt_le ri rj).
Proof.
  split.
  - exists (orderBy_createdAt (rows (tbl_projects st))).
    split; [done|]. apply orderBy_createdAt_spec.
  - exists (orderBy_createdAt (rows (tbl_products st))).
    split; [done|]. apply orderBy_createdAt_spec.
Qed.

(** ** Tables that an operation does not touch *)

Lemma keeps_ret {A} t (a : A) : keeps t (ret a).
Proof. by intros st. Qed.

Lemma keeps_bind {A B} t (m : M A) (k : A → M B) :
  keeps t m → (∀ a, keeps t (k a)) → keeps t (bind m k).
Proof.
  intros Hm Hk st. unfold bind. specialize (Hm st).
  destruct (m st) as [st' [a|e]]; [|done]. by rewrite Hk.
Qed.

Lemma keeps_select t t' : keeps t (db_select t').
Proof. by intros st. Qed.

Lemma keeps_insert t t' now values : t' ≠ t → keeps t (db_insert t' now values).
Proof.
  intros Hne st. unfold db_insert.
  destruct (fill_row _ _ _ _) as [row sq].
  destruct (check_row _ _ _); cbn [fst]; by rewrite tget_tset_ne.
Qed.

Lemma keeps_for_each_from {A B} t i (xs : list A) (f : nat → A → M B) :
  (∀ i x, keeps t (f i x)) → keeps t (for_each_from i xs f).
Proof.
  intros Hf. revert i. induction xs as [|x xs IH]; intros i; cbn.
  - apply keeps_ret.
  - apply keeps_bind; auto.
Qed.

(** ** The configuration row *)

Lemma updateSiteConfig_insert now config st row sq :
  rows (tbl_site_config st) = [] →
  fill_row now config siteConfig_columns (seq (tbl_site_config st)) = (row, sq) →
  check_row st siteConfig_columns row = Ok tt →
  updateSiteConfig now config st
  = (tset siteConfig {| rows := [row]; seq := sq |} st, Ok (Some row)).
Proof.
  intros Hrows Hfill Hc. unfold updateSiteConfig.
  rewrite (bind_ok _ _ _ _ _ (getSiteConfig_eq st)), Hrows. cbn [head].
  unfold bind, db_insert. cbn [tget columns]. by rewrite Hfill, Hc, Hrows.
Qed.


Lemma defaultConfig_row now sq st :
  let row := (fill_row now defaultConfig siteConfig_columns sq).1 in
  check_row st siteConfig_columns row = Ok tt ∧
  row !! "companyName" = Some (Str "Voorbeeld Bedrijf BV").
Proof. by vm_compute. Qed.

Lemma get_config_eq st :
  get_config st = (st, Respond 200 (Json (head (rows (tbl_site_config st))))).
Proof.
  unfold get_config, try_catch.
  by rewrite (bind_ok _ _ _ _ _ (getSiteConfig_eq st)).
Qed.

Lemma initializeDefaults_config clock st :
  rows (tbl_site_config st) = [] →
  rows (tbl_site_config (initializeDefaults clock st).1)
  = [(fill_row (clock 0%nat) defaultConfig siteConfig_columns
        (seq (tbl_site_config st))).1].
Proof.
  intros Hrows. unfold initializeDefaults.
  rewrite (bind_ok _ _ _ _ _ (getSiteConfig_eq st)), Hrows. cbn [head].
  destruct (fill_row (clock 0%nat) defaultConfig siteConfig_columns
              (seq (tbl_site_config st))) as [row sq] eqn:Hfill.
  pose proof (defaultConfig_row (clock 0%nat) (seq (tbl_site_config st)) st)
    as [Hc _].
  rewrite Hfill in Hc. cbn [fst] in *.
  set (rest := bind getProjects _).
  assert (keeps siteConfig rest) as Hk.
  { subst rest. repeat first
      [ apply keeps_ret | apply keeps_select
      | apply keeps_for_each_from; intros ? ?
      | apply keeps_insert; discriminate
      | apply keeps_bind; [|intros ?]
      | progress case_match ]. }
  unfold bind at 1.
  rewrite (bind_ok _ _ _ _ _
             (updateSiteConfig_insert _ _ _ _ _ Hrows Hfill Hc)).
  cbn [ret].
  change (rows (tget siteConfig
            (rest (tset siteConfig {| rows := [row]; seq := sq |} st)).1)
          = [row]).
  by rewrite Hk.
Qed.

(** C7, the code's behaviour at the concrete input: on a store without a
    configuration row [GET /api/config] answers 200 with no configuration
    and leaves the store without one. *)
Lemma get_config_creates_nothing :
  get_config emptyStore = (emptyStore, Respond 200 (Json None)) ∧
  ¬ (∃ st' row, get_config emptyStore = (st', Respond 200 (Json (Some row)))).
Proof. split; [reflexivity|]. intros (st' & row & H). discriminate H. Qed.

(** C7, as amended.  Reading the configuration never writes: without a
    row [getSiteConfig] returns the absent result and [GET /api/config]
    answers 200 with no configuration, the store unchanged.  The row is
    created by the seeding routine [initializeDefaults]: run on a store
    without a configuration row it leaves exactly one, the default one,
    which the next read returns. *)
Theorem config_row_created_by_seeding (st : Store) (clock : nat → Z) :
  rows (tbl_site_config st) = [] →
  getSiteConfig st = (st, Ok None) ∧
  get_config st = (st, Respond 200 (Json None)) ∧
  ∃ row,
    let st' := (initializeDefaults clock st).1 in
    rows (tbl_site_config st') = [row] ∧
    row !! "companyName" = Some (Str "Voorbeeld Bedrijf BV") ∧
    get_config st' = (st', Respond 200 (Json (Some row))).
Proof.
  intros Hrows. rewrite getSiteConfig_eq, get_config_eq, Hrows.
  do 2 (split; [done|]).
  eexists. cbn zeta. rewrite get_config_eq.
  rewrite (initializeDefaults_config clock st Hrows).
  split; [done|]. split; [|done].
  apply (defaultConfig_row (clock 0%nat) (seq (tbl_site_config st)) st).
Qed.

Lemma config_row_created_by_seeding_witness :
  rows (tbl_site_config emptyStore) = [] ∧
  ∃ row, rows (tbl_site_config seeded) = [row].
Proof.
  split; [reflexivity|].
  destruct (config_row_created_by_seeding emptyStore
              (λ i, 1000 + Z.of_nat i) eq_refl) as (_ & _ & row & H & _).
  exists row. exact H.
Defined.


Lemma fk_ok_no_references st t r :
  t ≠ messageReplies → fk_ok st (columns t) r = true.
Proof. by destruct t. Qed.














(** ** Updates *)

Lemma table_eta (tb : Table) : {| rows := rows tb; seq := seq tb |} = tb.
Proof. by destruct tb. Qed.



Lemma db_update_ok t values k x st :
  values ≠ ∅ →
  (∀ r, r ∈ rows (tget t st) → eqCond k x r →
        row_ok st t (values ∪ r) = true) →
  db_update t values k x st
  = (tset t {| rows := set_row values k x <$> rows (tget t st);
               seq := seq (tget t st) |} st,
     Ok ((λ r, values ∪ r) <$> filter (eqCond k x) (rows (tget t st)))).
Proof.
  intros Hne Hrows. unfold db_update. rewrite decide_False by done.
  cbn zeta.
  assert (check_rows st (columns t)
            ((λ r, values ∪ r) <$> filter (eqCond k x) (rows (tget t st)))
          = Ok tt) as ->; [|done].
  apply check_rows_ok. rewrite Forall_fmap. apply Forall_forall.
  intros r [? ?]%list_elem_of_filter. cbn. auto.
Qed.


(** ** Replies *)



Lemma no_row_spec t id st :
  no_row t id st = true ↔ ¬ Exists (eqCond "id" (Num id)) (rows (tget t st)).
Proof.
  unfold no_row, where_eq. rewrite bool_decide_eq_true. split.
  - intros Hf (r & Hr & He)%Exists_exists.
    by eapply filter_nil_not_elem_of.
  - intros Hn. apply elem_of_nil_inv. intros r [He Hr]%list_elem_of_filter.
    apply Hn, Exists_exists. eauto.
Qed.



(** ** Marking a message as read *)

Lemma tset_tset t tb tb' st : tset t tb (tset t tb' st) = tset t tb st.
Proof. by destruct t. Qed.

Lemma set_row_idemp values k x r :
  values !! k = None →
  set_row values k x (set_row values k x r) = set_row values k x r.
Proof.
  intros Hk. unfold set_row at 2. case_decide as He.
  - unfold set_row.
    rewrite !decide_True by (done || by apply eqCond_union_other).
    apply map_eq. intros i. rewrite !lookup_union.
    by destruct (values !! i), (r !! i).
  - unfold set_row. by rewrite decide_False.
Qed.

Lemma has_row_spec t id st :
  has_row t id st = true ↔ Exists (eqCond "id" (Num id)) (rows (tget t st)).
Proof.
  unfold has_row. rewrite negb_true_iff, <-not_true_iff_false, no_row_spec.
  split; [|tauto]. intros H. by destruct (decide (Exists (eqCond "id" (Num id))
                                                 (rows (tget t st)))).
Qed.

Lemma markMessageAsRead_eq id st :
  store_ok st = true →
  markMessageAsRead id st
  = (tset messages
       {| rows := set_row {[ "isRead" := Bool true ]} "id" (Num id)
                    <$> rows (tbl_messages st);
          seq := seq (tbl_messages st) |} st,
     Ok (has_row messages id st)).
Proof.
  intros [_ Hrows]%store_ok_spec. unfold markMessageAsRead.
  erewrite bind_ok; cycle 1.
  { apply db_update_ok; [apply map_non_empty_singleton|].
    intros r Hr _. specialize (Hrows messages r Hr).
    apply andb_true_iff in Hrows as [Hnn _]. unfold row_ok.
    rewrite fk_ok_no_references by done. rewrite andb_true_r.
    apply notnull_ok_union; [done|].
    intros c v _ _ Hv.
    destruct (decide (cname c = "isRead")) as [Heq|Hne].
    - rewrite Heq, lookup_singleton_eq in Hv. by intros ->.
    - by rewrite lookup_singleton_ne in Hv. }
  unfold ret. cbn [tget]. do 2 f_equal.
  unfold has_row, no_row, where_eq. cbn [tget].
  by destruct (filter _ _).
Qed.

Lemma put_message_read_eq id st st' marked :
  markMessageAsRead id st = (st', Ok marked) →
  put_message_read id st
  = (st', if marked then Respond 200 (JsonMessage "Message marked as read")
          else Respond 404 (JsonMessage "Message not found")).
Proof.
  intros H. unfold put_message_read, try_catch.
  rewrite (bind_ok _ _ _ _ _ H). by destruct marked.
Qed.

(** C9.  On a well-formed store, marking a stored message as read
    succeeds and answers 200; in the message with that identifier the read
    flag becomes true and every other field keeps its value; every other
    message, and every other table, is unchanged.  Marking it again
    succeeds again and changes nothing: once and twice give the same
    store. *)
Theorem markMessageAsRead_idempotent (st : Store) (id : Z) :
  store_ok st = true →
  has_row messages id st = true →
  let st1 := (markMessageAsRead id st).1 in
  markMessageAsRead id st = (st1, Ok true) ∧
  put_message_read id st
  = (st1, Respond 200 (JsonMessage "Message marked as read")) ∧
  Forall2 (λ r r',
      (r !! "id" = Some (Num id) → r' !! "isRead" = Some (Bool true)) ∧
      (r !! "id" ≠ Some (Num id) → r' = r) ∧
      (∀ k, k ≠ "isRead" → r' !! k = r !! k))
    (rows (tbl_messages st)) (rows (tbl_messages st1)) ∧
  (∀ t, t ≠ messages → tget t st1 = tget t st) ∧
  seq (tbl_messages st1) = seq (tbl_messages st) ∧
  markMessageAsRead id st1 = (st1, Ok true) ∧
  put_message_read id st1
  = (st1, Respond 200 (JsonMessage "Message marked as read")).
Proof.
  intros Hok Hhas st1.
  pose proof (markMessageAsRead_eq id st Hok) as H1. rewrite Hhas in H1.
  assert (st1 = tset messages
            {| rows := set_row {[ "isRead" := Bool true ]} "id" (Num id)
                         <$> rows (tbl_messages st);
               seq := seq (tbl_messages st) |} st) as Hst1
    by (subst st1; by rewrite H1).
  assert (store_ok st1 = true) as Hok1.
  { subst st1. revert Hok. generalize st. unfold markMessageAsRead.
    change (preserves (bind (db_update messages {[ "isRead" := Bool true ]}
                               "id" (Num id))
                         (λ l, ret (0 <? Z.of_nat (length l))))).
    preserves_tac. }
  assert (has_row messages id st1 = true) as Hhas1.
  { apply has_row_spec. apply has_row_spec in Hhas.
    rewrite Hst1. cbn. apply Exists_fmap. eapply Exists_impl; [done|].
    intros r Hr. cbn. unfold set_row. rewrite decide_True by done.
    by apply eqCond_union_other. }
  assert (markMessageAsRead id st1 = (st1, Ok true)) as H2.
  { rewrite (markMessageAsRead_eq id st1 Hok1), Hhas1. f_equal.
    change (tbl_messages st1) with (tget messages st1).
    rewrite Hst1, tget_tset_eq, tset_tset. cbn [rows seq]. do 2 f_equal.
    rewrite <-list_fmap_compose. apply list_fmap_ext. intros _ r _. cbn.
    by apply set_row_idemp. }
  split; [by rewrite H1, Hst1|].
  split; [by rewrite (put_message_read_eq _ _ _ _ H1), Hst1|].
  split; [|split; [|split; [|split]]].
  - rewrite Hst1. cbn [tbl_messages tset rows]. apply Forall2_fmap_r.
    apply Forall_Forall2_diag, Forall_true. intros r. cbn [compose].
    unfold set_row. case_decide as He.
    + rewrite <-insert_union_singleton_l. split; [|split].
      * intros _. by rewrite lookup_insert_eq.
      * intros Hn. by destruct He.
      * intros k Hk. by rewrite lookup_insert_ne.
    + split; [|done]. intros Hid. destruct He. by split.
  - intros t Hne. rewrite Hst1. by apply tget_tset_ne.
  - by rewrite Hst1.
  - done.
  - by rewrite (put_message_read_eq _ _ _ _ H2).
Qed.

(** ** Identifiers that match no row *)

Lemma where_eq_nil t id st :
  no_row t id st = true → where_eq "id" (Num id) (rows (tget t st)) = [].
Proof. unfold no_row. by rewrite bool_decide_eq_true. Qed.

Lemma filter_complement_nil (l : list Obj) k x :
  filter (eqCond k x) l = [] → filter (λ r, ¬ eqCond k x r) l = l.
Proof.
  intros Hf. induction l as [|r l IH]; [done|].
  rewrite filter_cons in Hf. rewrite filter_cons.
  destruct (decide (eqCond k x r)) as [He|He]; [done|].
  rewrite decide_True by done. by rewrite IH.
Qed.

Lemma db_delete_no_match t k x st :
  filter (eqCond k x) (rows (tget t st)) = [] →
  db_delete t k x st = (st, Ok 0).
Proof.
  intros Hf. unfold db_delete.
  by rewrite filter_complement_nil, Hf, table_eta, tset_tget.
Qed.






(** ** Uploads *)

Lemma upload_single_rejects f :
  String.prefix "image/" (mimetype f) = false ∨ fileSize < size f →
  upload_single (Some f)
  = Throw (if String.prefix "image/" (mimetype f) then LIMIT_FILE_SIZE
           else OnlyImageFilesAllowed).
Proof.
  unfold upload_single, fileFilter.
  destruct (String.prefix "image/" (mimetype f)); intros [?|Hlt]; try done.
  apply Z.ltb_lt in Hlt. by rewrite Hlt.
Qed.

Lemma upload_single_accepts f :
  String.prefix "image/" (mimetype f) = true → size f ≤ fileSize →
  upload_single (Some f) = Ok (Some f).
Proof.
  unfold upload_single, fileFilter. intros -> Hle.
  apply Z.ltb_ge in Hle. by rewrite Hle.
Qed.

(** C4, the code's behaviour at the concrete input: a text file sent to
    [POST /api/projects] with an otherwise valid body.  The route sends no
    400: the filter's error leaves the route through [next]. *)
Lemma post_project_text_file_no_400 :
  let body : Obj := {[ "title" := Str "t"; "description" := Str "d";
                       "category" := Str "c" ]} in
  let file := {| mimetype := "text/plain"; size := 120; filename := "f3a9" |} in
  post_project 2000 body (Some file) seeded
  = (seeded, NextError OnlyImageFilesAllowed) ∧
  status_of (post_project 2000 body (Some file) seeded).2 ≠ Some 400.
Proof. by vm_compute. Qed.

(** C4, as amended.  A request to [POST /api/projects] or
    [POST /api/products] that carries a file which is not an image, or an
    image larger than 5 MB, is stopped by the upload middleware: the
    handler of the route is not entered, the store is unchanged, so no row
    is created, and the route itself sends no response, 400 or other; the
    error ([Only image files are allowed], or multer's [LIMIT_FILE_SIZE])
    goes to the error handler of the application. *)
Theorem rejected_upload_creates_no_row
    (st : Store) (now : Z) (body : Obj) (f : File) :
  String.prefix "image/" (mimetype f) = false ∨ fileSize < size f →
  let e := if String.prefix "image/" (mimetype f) then LIMIT_FILE_SIZE
           else OnlyImageFilesAllowed in
  post_project now body (Some f) st = (st, NextError e) ∧
  post_product now body (Some f) st = (st, NextError e) ∧
  status_of (post_project now body (Some f) st).2 = None ∧
  status_of (post_product now body (Some f) st).2 = None.
Proof.
  intros Hrej e. pose proof (upload_single_rejects f Hrej) as Hu.
  unfold post_project, post_product, with_upload. by rewrite Hu.
Qed.

Lemma rejected_upload_creates_no_row_witness :
  let f := {| mimetype := "image/png"; size := 5 * 1024 * 1024 + 1;
              filename := "f3a9" |} in
  fileSize < size f ∧
  post_product 2000 ∅ (Some f) seeded = (seeded, NextError LIMIT_FILE_SIZE).
Proof.
  intros f. split; [reflexivity|].
  apply (rejected_upload_creates_no_row seeded 2000 ∅ f).
  right. reflexivity.
Defined.

(** ** Validated payloads fit their table *)









(** An insert whose row meets the constraints appends that row. *)
Lemma db_insert_ok t now values st :
  row_ok st t (fill_row now values (columns t) (seq (tget t st))).1 = true →
  db_insert t now values st
  = (tset t {| rows := rows (tget t st)
                       ++ [(fill_row now values (columns t) (seq (tget t st))).1];
               seq := (fill_row now values (columns t) (seq (tget t st))).2 |} st,
     Ok [(fill_row now values (columns t) (seq (tget t st))).1]).
Proof.
  intros Hok%check_row_ok. unfold db_insert.
  destruct (fill_row now values (columns t) (seq (tget t st))) as [row sq].
  cbn [fst snd] in *. by rewrite Hok.
Qed.


(** ** Creating a reply *)






(** ** Updating a project or a product *)

Lemma bind_fst {A B} (m : M A) (k : A → M B) st :
  (∀ a st', (k a st').1 = st') → (bind m k st).1 = (m st).1.
Proof.
  intros Hk. unfold bind. destruct (m st) as [st' [a|e]]; [apply Hk|done].
Qed.

Lemma try_catch_fst (m : M Outcome) s message st :
  (try_catch m s message st).1 = (m st).1.
Proof. unfold try_catch. by destruct (m st) as [st' [o|e]]. Qed.




Lemma insertProjectSchema_keys :
  insertProjectSchema.*1
  = ["title"; "description"; "category"; "status"; "imageUrl"].
Proof. reflexivity. Qed.

Lemma insertProductSchema_keys :
  insertProductSchema.*1
  = ["title"; "description"; "price"; "imageUrl"; "status"].
Proof. reflexivity. Qed.









Lemma get_projects_products_ascending_witness :
  ∃ l, get_projects two_projects = (two_projects, Respond 200 (JsonList l)) ∧
       (λ r, r !! "title") <$> l
       = [Some (Str "first"); Some (Str "later"); Some (Str "latest")].
Proof.
  destruct (get_projects_products_ascending two_projects)
    as [(l & Hl & _) _].
  exists l. split; [exact Hl|].
  assert (get_projects two_projects
          = (two_projects,
             Respond 200
               (JsonList (orderBy_createdAt (rows (tbl_projects two_projects))))))
    as H by reflexivity.
  rewrite H in Hl. injection Hl as <-. by vm_compute.
Defined.

Lemma markMessageAsRead_idempotent_witness :
  store_ok with_message = true ∧ has_row messages 1 with_message = true ∧
  put_message_read 1 with_message
  = ((markMessageAsRead 1 with_message).1,
     Respond 200 (JsonMessage "Message marked as read")) ∧
  (rows (tbl_messages (markMessageAsRead 1 with_message).1) !! 0%nat)
    ≫= (.!! "isRead") = Some (Bool true).
Proof.
  split; [by vm_compute|]. split; [by vm_compute|].
  split; [|by vm_compute].
  apply (markMessageAsRead_idempotent with_message 1); by vm_compute.
Defined.

(** ** The routes on concrete requests *)

(** A contact message, a reply to it, and the list of its replies. *)
Example message_then_reply :
  let body : Obj := {[ "name" := Str "Jan"; "email" := Str "jan@x.nl";
                       "subject" := Str "Vraag"; "message" := Str "Hallo" ]} in
  let '(st1, o1) := post_message 1500 body seeded in
  let '(st2, o2) := post_message_reply 1600 1 {[ "reply" := Str "Bedankt" ]} st1 in
  let '(st3, o3) := get_message_replies 1 st2 in
  let reply : Obj := {[ "id" := Num 1; "messageId" := Num 1;
                        "reply" := Str "Bedankt"; "isFromAdmin" := Bool true;
                        "createdAt" := Date 1600 ]} in
  o1 = Respond 200 (Json (Some (<["id" := Num 1]>
                                 (<["isRead" := Bool false]>
                                    (<["createdAt" := Date 1500]> body))))) ∧
  o2 = Respond 200 (Json (Some reply)) ∧
  o3 = Respond 200 (JsonList [reply]) ∧ st3 = st2.
Proof. by vm_compute. Qed.

(** A reply to a message that does not exist violates the foreign key. *)
Example reply_to_unknown_message :
  post_message_reply 1600 5 {[ "reply" := Str "Bedankt" ]} seeded
  = (tset messageReplies {| rows := []; seq := 1 |} seeded,
     Respond 400 (JsonMessage "Invalid reply data")).
Proof. by vm_compute. Qed.

(** An image of exactly 5 MB is accepted and its URL stored. *)
Example post_project_with_image :
  let body : Obj := {[ "title" := Str "t"; "description" := Str "d";
                       "category" := Str "c" ]} in
  let file := {| mimetype := "image/png"; size := 5 * 1024 * 1024;
                 filename := "f3a9" |} in
  (post_project 2000 body (Some file) seeded).2
  = Respond 200 (Json (Some {[ "id" := Num 4; "title" := Str "t";
                               "description" := Str "d"; "category" := Str "c";
                               "status" := Str "concept";
                               "imageUrl" := Str "/uploads/f3a9";
                               "createdAt" := Date 2000 ]})).
Proof. by vm_compute. Qed.

(** An update names one field: the others, the identifier and the creation
    timestamp stay; a body without any field is refused. *)
Example put_project_title :
  (put_project 3 {[ "title" := Str "Webwinkel"; "id" := Num 9 ]} None seeded).2
  = Respond 200 (Json (Some {[ "id" := Num 3; "title" := Str "Webwinkel";
      "description" := Str "Ontwikkeling van een volledig responsive e-commerce platform met moderne technologieën.";
      "category" := Str "web"; "status" := Str "progress";
      "imageUrl" := Str "https://images.unsplash.com/photo-1460925895917-afdab827c52f?w=800&h=600&fit=crop";
      "createdAt" := Date 1003 ]})) ∧
  put_project 3 ∅ None seeded
  = (seeded, Respond 400 (JsonMessage "Invalid project data")).
Proof. by vm_compute. Qed.

(** Deleting a project removes it; deleting it again is a 404. *)
Example delete_project_twice :
  let '(st1, o1) := delete_project 2 seeded in
  let '(st2, o2) := delete_project 2 st1 in
  o1 = Respond 200 (JsonMessage "Project deleted successfully") ∧
  length (rows (tbl_projects st1)) = 2%nat ∧
  o2 = Respond 404 (JsonMessage "Project not found") ∧ st2 = st1.
Proof. by vm_compute. Qed.

(** * Further properties of the storage layer and the routes *)

(** ** Writes, one at a time *)

Lemma fill_row_seq now values cs sq :
  forallb (λ c, negb (is_nextval c)) cs = true →
  (fill_row now values cs sq).2 = sq.
Proof.
  revert sq. induction cs as [|c cs IH]; intros sq Hcs; [done|].
  cbn [forallb] in Hcs. apply andb_true_iff in Hcs as [Hc Hcs].
  cbn [fill_row]. unfold fill_column, is_nextval in *.
  destruct (values !! cname c); [|destruct (cdefault c); try done];
    specialize (IH sq Hcs); by destruct (fill_row now values cs sq).
Qed.

Lemma columns_id_first t :
  ∃ cs, columns t = primaryKey (serial "id") :: cs ∧
        forallb (λ c, negb (is_nextval c)) cs = true.
Proof. destruct t; eexists; split; reflexivity. Qed.

(** An insert that does not name the identifier draws the next one. *)
Lemma fill_row_id t now values sq :
  values !! "id" = None →
  (fill_row now values (columns t) sq).1 !! "id" = Some (Num (sq + 1)) ∧
  (fill_row now values (columns t) sq).2 = sq + 1.
Proof.
  intros Hid. destruct (columns_id_first t) as (cs & -> & Hcs).
  assert (fill_row now values (primaryKey (serial "id") :: cs) sq
          = (<["id" := Num (sq + 1)]> (fill_row now values cs (sq + 1)).1,
             (fill_row now values cs (sq + 1)).2)) as ->.
  { cbn [fill_row]. unfold fill_column.
    cbn [cname primaryKey serial notNull cdefault]. rewrite Hid.
    by destruct (fill_row now values cs (sq + 1)). }
  cbn [fst snd]. split; [by rewrite lookup_insert_eq|by apply fill_row_seq].
Qed.

Lemma row_id_Some r n : r !! "id" = Some (Num n) → row_id r = Some n.
Proof. unfold row_id. by intros ->. Qed.

Lemma db_insert_effect t now values st :
  values !! "id" = None → effect st (db_insert t now values st).1.
Proof.
  intros Hid. unfold db_insert.
  destruct (fill_row_id t now values (seq (tget t st)) Hid) as [Hrow Hsq].
  destruct (fill_row now values (columns t) (seq (tget t st))) as [row sq].
  cbn [fst snd] in *. subst sq.
  destruct (check_row st (columns t) row); cbn [fst].
  - apply eff_insert. by apply row_id_Some.
  - apply eff_refused.
Qed.

Lemma db_update_effect t values k x st :
  t ≠ messageReplies →
  values !! "id" = None → values !! "createdAt" = None →
  effect st (db_update t values k x st).1.
Proof.
  intros Ht Hid Hcr. unfold db_update.
  destruct (decide (values = ∅)); [apply eff_none|]. cbn zeta.
  destruct (check_rows _ _ _); cbn [fst]; [by apply eff_update|apply eff_none].
Qed.

Lemma db_delete_effect t k x st :
  t = projects ∨ t = products → effect st (db_delete t k x st).1.
Proof. intros Ht. unfold db_delete. cbn [fst]. by apply eff_delete. Qed.

Lemma effectful_ret {A} (a : A) : effectful (ret a).
Proof. intros st. apply eff_none. Qed.

Lemma effectful_bind_read {A B} (m : M A) (k : A → M B) :
  (∀ st, (m st).1 = st) → (∀ a, effectful (k a)) → effectful (bind m k).
Proof.
  intros Hm Hk st. unfold bind. specialize (Hm st).
  destruct (m st) as [st' [a|e]]; cbn in Hm; subst; [apply Hk|apply eff_none].
Qed.

Lemma effectful_bind_lift {A B} (r : Result A) (k : A → M B) :
  (∀ a, r = Ok a → effectful (k a)) → effectful (bind (lift r) k).
Proof.
  intros Hk st. unfold bind, lift. destruct r as [a|e]; [by apply Hk|].
  apply eff_none.
Qed.

Lemma effectful_bind_write {A B} (m : M A) (k : A → M B) :
  effectful m → (∀ a st, (k a st).1 = st) → effectful (bind m k).
Proof. intros Hm Hk st. rewrite bind_fst by done. apply Hm. Qed.

Lemma payload_no_key s body data k :
  k ∉ s.*1 → parse s body = Ok data → data !! k = None.
Proof. intros Hk Hp. rewrite (parse_lookup _ _ _ k Hp). by rewrite decide_False. Qed.

Lemma add_image_url_no_key req_file data k :
  k ≠ "imageUrl" → data !! k = None → add_image_url req_file data !! k = None.
Proof.
  intros Hk Hd. destruct req_file; cbn; [|done]. by rewrite lookup_insert_ne.
Qed.

Lemma partial_keys (s : Schema) : (partial s).*1 = s.*1.
Proof. unfold partial. rewrite <-list_fmap_compose. by apply list_fmap_ext. Qed.

Lemma updateSiteConfig_effect now config st :
  config !! "id" = None → config !! "createdAt" = None →
  effect st (updateSiteConfig now config st).1.
Proof.
  intros Hid Hcr. unfold updateSiteConfig.
  rewrite (bind_ok _ _ _ _ _ (getSiteConfig_eq st)).
  destruct (head (rows (tbl_site_config st))).
  - rewrite bind_fst by done. by apply db_update_effect.
  - rewrite bind_fst by done. by apply db_insert_effect.
Qed.

Lemma try_catch_effect (m : M Outcome) s message :
  effectful m → ∀ st, effect st (try_catch m s message st).1.
Proof. intros Hm st. rewrite try_catch_fst. apply Hm. Qed.

Lemma with_upload_effect file (h : option File → Handler) st :
  (∀ f, effect st (h f st).1) → effect st (with_upload file h st).1.
Proof.
  intros Hh. unfold with_upload.
  destruct (upload_single file); [apply Hh|apply eff_none].
Qed.

Lemma insert_effectful t now values :
  values !! "id" = None →
  effectful (l <- db_insert t now values ;; ret (first_row l)).
Proof.
  intros Hid. apply effectful_bind_write; [|done].
  intros st. by apply db_insert_effect.
Qed.

Lemma update_effectful t values id :
  t ≠ messageReplies →
  values !! "id" = None → values !! "createdAt" = None →
  effectful (l <- db_update t values "id" (Num id) ;; ret (first_row l)).
Proof.
  intros Ht Hid Hcr. apply effectful_bind_write; [|done].
  intros st. by apply db_update_effect.
Qed.

Lemma delete_effectful t id :
  t = projects ∨ t = products →
  effectful (rowCount <- db_delete t "id" (Num id) ;; ret (0 <? rowCount)).
Proof.
  intros Ht. apply effectful_bind_write; [|done].
  intros st. by apply db_delete_effect.
Qed.

(** The keys that no schema of a route lets through. *)
Lemma schemas_omit_identity :
  Forall (λ s : Schema, ("id" ∉ s.*1) ∧ ("createdAt" ∉ s.*1))
    [insertSiteConfigSchema; insertProjectSchema; insertProductSchema;
     insertMessageSchema; insertMessageReplySchema].
Proof.
  repeat (constructor; [split; apply (bool_decide_unpack _); by vm_compute|]).
  constructor.
Qed.

Lemma schema_omits_identity s body data req_file :
  s ∈ [insertSiteConfigSchema; insertProjectSchema; insertProductSchema;
       insertMessageSchema; insertMessageReplySchema] →
  parse s body = Ok data ∨ parse (partial s) body = Ok data →
  add_image_url req_file data !! "id" = None ∧
  add_image_url req_file data !! "createdAt" = None ∧
  data !! "id" = None ∧ data !! "createdAt" = None.
Proof.
  intros Hs Hp. pose proof schemas_omit_identity as Hall.
  rewrite Forall_forall in Hall. destruct (Hall s Hs) as [Hid Hcr].
  assert (data !! "id" = None ∧ data !! "createdAt" = None) as [H1 H2].
  { destruct Hp as [Hp|Hp].
    - split; by eapply payload_no_key.
    - rewrite <-partial_keys in Hid, Hcr. split; by eapply payload_no_key. }
  repeat split; try done; by apply add_image_url_no_key.
Qed.

(** Every request is one write at most. *)
Lemma handle_effect now req st : effect st (handle now req st).1.
Proof.
  destruct req; cbn [handle];
    try (apply with_upload_effect; intros req_file);
    apply try_catch_effect.
  - (* GET config *)
    apply effectful_bind_read; [by intros; rewrite getSiteConfig_eq|].
    intros; apply effectful_ret.
  - (* PUT config *)
    apply effectful_bind_lift. intros config Hp.
    destruct (schema_omits_identity insertSiteConfigSchema body config None)
      as (_ & _ & Hid & Hcr); [set_solver|by left|].
    apply effectful_bind_write; [|done].
    intros st'. by apply updateSiteConfig_effect.
  - apply effectful_bind_read; [done|]. intros; apply effectful_ret.
  - apply effectful_bind_read; [done|]. intros [?|]; apply effectful_ret.
  - (* POST project *)
    apply effectful_bind_lift. intros data Hp.
    destruct (schema_omits_identity insertProjectSchema body data req_file)
      as (Hid & Hcr & _); [set_solver|by left|].
    apply effectful_bind_write; [|done]. by apply insert_effectful.
  - (* PUT project *)
    apply effectful_bind_lift. intros data Hp.
    destruct (schema_omits_identity insertProjectSchema body data req_file)
      as (Hid & Hcr & _); [set_solver|by right|].
    apply effectful_bind_write; [|by intros [?|] ?].
    by apply update_effectful.
  - (* DELETE project *)
    apply effectful_bind_write; [|by intros [] ?].
    apply delete_effectful. by left.
  - apply effectful_bind_read; [done|]. intros; apply effectful_ret.
  - apply effectful_bind_read; [done|]. intros [?|]; apply effectful_ret.
  - (* POST product *)
    apply effectful_bind_lift. intros data Hp.
    destruct (schema_omits_identity insertProductSchema body data req_file)
      as (Hid & Hcr & _); [set_solver|by left|].
    apply effectful_bind_write; [|done]. by apply insert_effectful.
  - (* PUT product *)
    apply effectful_bind_lift. intros data Hp.
    destruct (schema_omits_identity insertProductSchema body data req_file)
      as (Hid & Hcr & _); [set_solver|by right|].
    apply effectful_bind_write; [|by intros [?|] ?].
    by apply update_effectful.
  - (* DELETE product *)
    apply effectful_bind_write; [|by intros [] ?].
    apply delete_effectful. by right.
  - apply effectful_bind_read; [done|]. intros; apply effectful_ret.
  - apply effectful_bind_read; [done|]. intros [?|]; apply effectful_ret.
  - (* POST message *)
    apply effectful_bind_lift. intros data Hp.
    destruct (schema_omits_identity insertMessageSchema body data None)
      as (_ & _ & Hid & Hcr); [set_solver|by left|].
    apply effectful_bind_write; [|done]. by apply insert_effectful.
  - (* PUT message read *)
    apply effectful_bind_write; [|by intros [] ?].
    unfold markMessageAsRead. apply effectful_bind_write; [|done].
    intros st'. by apply db_update_effect.
  - apply effectful_bind_read; [done|]. intros; apply effectful_ret.
  - (* POST reply *)
    apply effectful_bind_lift. intros data Hp.
    destruct (schema_omits_identity insertMessageReplySchema
                (<["messageId" := Num id]> body) data None)
      as (_ & _ & Hid & Hcr); [set_solver|by left|].
    apply effectful_bind_write; [|done]. by apply insert_effectful.
Qed.

Lemma effectful_star_of {A} (m : M A) : effectful m → effectful_star m.
Proof. intros Hm st. apply rtc_once, Hm. Qed.

Lemma effectful_star_bind {A B} (m : M A) (k : A → M B) :
  effectful_star m → (∀ a, effectful_star (k a)) → effectful_star (bind m k).
Proof.
  intros Hm Hk st. unfold bind. specialize (Hm st).
  destruct (m st) as [st' [a|e]]; [|done]. cbn [fst] in Hm.
  etrans; [done|apply Hk].
Qed.

Lemma effectful_star_for_each_from {A B} i (xs : list A) (f : nat → A → M B) :
  (∀ i x, x ∈ xs → effectful_star (f i x)) →
  effectful_star (for_each_from i xs f).
Proof.
  revert i. induction xs as [|x xs IH]; intros i Hf; cbn [for_each_from].
  - apply effectful_star_of, effectful_ret.
  - apply effectful_star_bind; [apply Hf, list_elem_of_here|].
    intros _. apply IH. intros j y Hy. by apply Hf, list_elem_of_further.
Qed.

Lemma initializeDefaults_effects clock : effectful_star (initializeDefaults clock).
Proof.
  unfold initializeDefaults.
  apply effectful_star_bind.
  { apply effectful_star_of. intros st. rewrite getSiteConfig_eq. apply eff_none. }
  intros existing. apply effectful_star_bind.
  { apply effectful_star_of. destruct existing; [apply effectful_ret|].
    apply effectful_bind_write; [|done].
    intros st. by apply updateSiteConfig_effect. }
  intros _. apply effectful_star_bind.
  { apply effectful_star_of. intros st. apply eff_none. }
  intros l. apply effectful_star_bind.
  { case_decide; [|apply effectful_star_of, effectful_ret].
    apply effectful_star_for_each_from. intros i x Hx.
    apply effectful_star_of, insert_effectful.
    revert x Hx. apply Forall_forall. by repeat constructor. }
  intros _. apply effectful_star_bind.
  { apply effectful_star_of. intros st. apply eff_none. }
  intros l'. case_decide; [|apply effectful_star_of, effectful_ret].
  apply effectful_star_for_each_from. intros i x Hx.
  apply effectful_star_of, insert_effectful.
  revert x Hx. apply Forall_forall. by repeat constructor.
Qed.

(** ** Identifiers *)

Lemma table_ids_ok_spec tb :
  table_ids_ok tb = true ↔
  (∀ r, r ∈ rows tb → ∃ n, row_id r = Some n ∧ n ≤ seq tb) ∧
  NoDup (row_id <$> rows tb).
Proof.
  unfold table_ids_ok. rewrite andb_true_iff, bool_decide_eq_true.
  apply and_iff_compat_r. rewrite forallb_forall. unfold id_bounded. split.
  - intros H r Hr%list_elem_of_In%H. destruct (row_id r) as [n|]; [|done].
    apply bool_decide_eq_true in Hr. eauto.
  - intros H r Hr%list_elem_of_In%H. destruct Hr as (n & -> & Hn).
    by apply bool_decide_eq_true.
Qed.

Lemma ids_ok_spec st :
  ids_ok st = true ↔ ∀ t, table_ids_ok (tget t st) = true.
Proof.
  unfold ids_ok, all_tables. cbn [forallb]. rewrite !andb_true_iff. split.
  - intros (? & ? & ? & ? & ? & _) []; done.
  - intros H. repeat split; apply H.
Qed.

Lemma ids_ok_tset t tb st :
  ids_ok st = true → table_ids_ok tb = true → ids_ok (tset t tb st) = true.
Proof.
  rewrite !ids_ok_spec. intros Hst Htb t'.
  destruct (decide (t = t')) as [<-|Hne].
  - by rewrite tget_tset_eq.
  - by rewrite tget_tset_ne.
Qed.

Lemma row_id_set_row values k x r :
  values !! "id" = None → row_id (set_row values k x r) = row_id r.
Proof.
  intros Hid. unfold set_row. case_decide; [|done].
  unfold row_id. by rewrite lookup_union_r.
Qed.

Lemma effect_ids_ok st st' : effect st st' → ids_ok st = true → ids_ok st' = true.
Proof.
  intros Heff Hok. pose proof Hok as Hall. rewrite ids_ok_spec in Hall.
  destruct Heff as [|t row Hrow|t|t values k x _ Hid _|t k x _]; [done|..];
    apply ids_ok_tset; try done;
    destruct (proj1 (table_ids_ok_spec _) (Hall t)) as [Hb Hnd];
    apply table_ids_ok_spec; cbn [rows seq]; split.
  - intros r [Hr| ->%list_elem_of_singleton]%elem_of_app.
    + destruct (Hb r Hr) as (n & ? & ?). exists n. split; [done|lia].
    + eexists. split; [done|lia].
  - rewrite fmap_app. apply NoDup_app. split; [done|]. split; [|apply NoDup_singleton].
    intros o (r & -> & Hr)%list_elem_of_fmap Ho. cbn in Ho.
    apply list_elem_of_singleton in Ho. destruct (Hb r Hr) as (n & Hn & ?).
    rewrite Hn, Hrow in Ho. injection Ho as ->. lia.
  - intros r Hr. destruct (Hb r Hr) as (n & ? & ?). exists n. split; [done|lia].
  - done.
  - intros r' (r & -> & Hr)%list_elem_of_fmap.
    rewrite row_id_set_row by done. auto.
  - rewrite <-list_fmap_compose.
    erewrite list_fmap_ext; [done|]. intros _ r _. cbn.
    by apply row_id_set_row.
  - intros r [_ Hr]%list_elem_of_filter. auto.
  - apply (sublist_NoDup _ (row_id <$> rows (tget t st))); [done|].
    apply fmap_sublist, sublist_filter.
Qed.

Lemma effects_ids_ok st st' :
  rtc effect st st' → ids_ok st = true → ids_ok st' = true.
Proof. induction 1; eauto using effect_ids_ok. Qed.

Lemma handle_ids_ok now req st :
  ids_ok st = true → ids_ok (handle now req st).1 = true.
Proof. apply effect_ids_ok, handle_effect. Qed.

Lemma reachable_ids_ok st : reachable st → ids_ok st = true.
Proof.
  induction 1 as [|st clock _ IH|st now req _ IH].
  - done.
  - by eapply effects_ids_ok; [apply initializeDefaults_effects|].
  - by apply handle_ids_ok.
Qed.

Lemma row_id_Some_iff r n : row_id r = Some n ↔ r !! "id" = Some (Num n).
Proof.
  unfold row_id. split; [|by intros ->].
  destruct (r !! "id") as [[]|]; naive_solver.
Qed.

Lemma ids_ok_rows st t :
  ids_ok st = true →
  (∀ r, r ∈ rows (tget t st) →
        ∃ n, r !! "id" = Some (Num n) ∧ n ≤ seq (tget t st)) ∧
  (∀ i j r r', rows (tget t st) !! i = Some r → rows (tget t st) !! j = Some r' →
               r !! "id" = r' !! "id" → i = j).
Proof.
  intros Hok. rewrite ids_ok_spec in Hok.
  destruct (proj1 (table_ids_ok_spec _) (Hok t)) as [Hb Hnd]. split.
  - intros r Hr. destruct (Hb r Hr) as (n & Hn%row_id_Some_iff & ?). eauto.
  - intros i j r r' Hi Hj Heq.
    destruct (Hb r (list_elem_of_lookup_2 _ _ _ Hi)) as (n & Hn & _).
    assert (row_id r' = Some n) as Hn'.
    { apply row_id_Some_iff. rewrite <-Heq. by apply row_id_Some_iff. }
    apply (NoDup_lookup (row_id <$> rows (tget t st)) i j (Some n) Hnd);
      rewrite list_lookup_fmap; [rewrite Hi|rewrite Hj]; cbn; congruence.
Qed.


(** X1.  In every state the database can reach, each row of each table
    carries an integer identifier, no identifier exceeds the sequence of its
    table, and no two rows of a table carry the same identifier. *)
Theorem reachable_ids_unique (st : Store) (t : TableRef) :
  reachable st →
  (∀ r, r ∈ rows (tget t st) →
        ∃ n, r !! "id" = Some (Num n) ∧ n ≤ seq (tget t st)) ∧
  (∀ i j r r', rows (tget t st) !! i = Some r → rows (tget t st) !! j = Some r' →
               r !! "id" = r' !! "id" → i = j).
Proof. intros Hr. by apply ids_ok_rows, reachable_ids_ok. Qed.

Lemma reachable_ids_unique_witness :
  reachable seeded ∧
  ∀ i j r r', rows (tbl_projects seeded) !! i = Some r →
              rows (tbl_projects seeded) !! j = Some r' →
              r !! "id" = r' !! "id" → i = j.
Proof.
  assert (reachable seeded) as Hr by apply reach_boot, reach_empty.
  split; [exact Hr|].
  apply (reachable_ids_unique seeded projects Hr).
Defined.

(** ** Creating rows *)







Lemma first_row_singleton (r : Obj) : first_row [r] = Some r.
Proof. done. Qed.









(** ** Reading back what was written *)

Lemma get_project_eq id st :
  get_project id st
  = (st, match first_row (where_eq "id" (Num id) (rows (tbl_projects st))) with
         | None => Respond 404 (JsonMessage "Project not found")
         | Some p => Respond 200 (Json (Some p))
         end).
Proof.
  unfold get_project, try_catch, getProject, bind, db_select, ret. cbn [tget].
  by destruct (first_row _).
Qed.

Lemma get_product_eq id st :
  get_product id st
  = (st, match first_row (where_eq "id" (Num id) (rows (tbl_products st))) with
         | None => Respond 404 (JsonMessage "Product not found")
         | Some p => Respond 200 (Json (Some p))
         end).
Proof.
  unfold get_product, try_catch, getProduct, bind, db_select, ret. cbn [tget].
  by destruct (first_row _).
Qed.

Lemma get_message_eq id st :
  get_message id st
  = (st, match first_row (where_eq "id" (Num id) (rows (tbl_messages st))) with
         | None => Respond 404 (JsonMessage "Message not found")
         | Some p => Respond 200 (Json (Some p))
         end).
Proof.
  unfold get_message, try_catch, getMessage, bind, db_select, ret. cbn [tget].
  by destruct (first_row _).
Qed.






Lemma where_eq_set_row values k x (l : list Obj) :
  values !! k = None →
  where_eq k x (set_row values k x <$> l) = (λ r, values ∪ r) <$> where_eq k x l.
Proof.
  intros Hk. unfold where_eq. induction l as [|r l IH]; [done|].
  rewrite fmap_cons. unfold set_row at 1.
  destruct (decide (eqCond k x r)) as [He|He].
  - rewrite !filter_cons_True by (done || by apply eqCond_union_other).
    by rewrite fmap_cons, IH.
  - by rewrite !filter_cons_False.
Qed.






(** ** Deleting *)

Lemma eqCond_id r id : eqCond "id" (Num id) r ↔ r !! "id" = Some (Num id).
Proof. unfold eqCond. split; [by intros [? _]|by intros ?; split]. Qed.

Lemma where_eq_complement k x (l : list Obj) :
  where_eq k x (filter (λ r, ¬ eqCond k x r) l) = [].
Proof.
  apply elem_of_nil_inv. intros r [He Hr]%list_elem_of_filter.
  by apply list_elem_of_filter in Hr as [Hn _].
Qed.

Lemma filter_lengths k x (l : list Obj) :
  (length (filter (λ r, ¬ eqCond k x r) l) + length (where_eq k x l))%nat
  = length l.
Proof.
  unfold where_eq. induction l as [|r l IH]; [done|].
  rewrite !filter_cons. destruct (decide (eqCond k x r)) as [He|He].
  - rewrite decide_False by tauto. cbn. lia.
  - rewrite decide_True by done. cbn. lia.
Qed.

(** With distinct identifiers, an identifier selects one row at most. *)
Lemma where_eq_unique st t id :
  ids_ok st = true →
  (length (where_eq "id" (Num id) (rows (tget t st))) ≤ 1)%nat.
Proof.
  intros Hok. rewrite ids_ok_spec in Hok.
  destruct (proj1 (table_ids_ok_spec _) (Hok t)) as [_ Hnd].
  revert Hnd. generalize (rows (tget t st)). unfold where_eq.
  induction l as [|r l IH]; [cbn; lia|].
  rewrite fmap_cons, NoDup_cons. intros [Hr Hnd]. rewrite filter_cons.
  destruct (decide (eqCond "id" (Num id) r)) as [He|He]; [|by apply IH].
  assert (filter (eqCond "id" (Num id)) l = []) as ->; [|cbn; lia].
  apply elem_of_nil_inv. intros r' [He' Hr']%list_elem_of_filter.
  apply Hr. apply list_elem_of_fmap. exists r'. split; [|done].
  apply eqCond_id, row_id_Some_iff in He, He'. congruence.
Qed.

Lemma db_delete_eq t k x st :
  db_delete t k x st
  = (tset t {| rows := filter (λ r, ¬ eqCond k x r) (rows (tget t st));
               seq := seq (tget t st) |} st,
     Ok (Z.of_nat (length (where_eq k x (rows (tget t st)))))).
Proof. done. Qed.

Lemma delete_project_eq id st :
  delete_project id st
  = ((db_delete projects "id" (Num id) st).1,
     if (0 <? Z.of_nat (length (where_eq "id" (Num id) (rows (tbl_projects st)))))
     then Respond 200 (JsonMessage "Project deleted successfully")
     else Respond 404 (JsonMessage "Project not found")).
Proof.
  unfold delete_project, try_catch, deleteProject, bind, ret.
  rewrite db_delete_eq. cbn [tget fst]. by destruct (0 <? _).
Qed.

Lemma delete_product_eq id st :
  delete_product id st
  = ((db_delete products "id" (Num id) st).1,
     if (0 <? Z.of_nat (length (where_eq "id" (Num id) (rows (tbl_products st)))))
     then Respond 200 (JsonMessage "Product deleted successfully")
     else Respond 404 (JsonMessage "Product not found")).
Proof.
  unfold delete_product, try_catch, deleteProduct, bind, ret.
  rewrite db_delete_eq. cbn [tget fst]. by destruct (0 <? _).
Qed.

Lemma has_row_length t id st :
  has_row t id st = true →
  (0 <? Z.of_nat (length (where_eq "id" (Num id) (rows (tget t st))))) = true.
Proof.
  unfold has_row, no_row. rewrite negb_true_iff, bool_decide_eq_false.
  by destruct (where_eq _ _ _).
Qed.

(** What a delete of a stored identifier leaves behind, for either table. *)
Lemma deleted_store t id st :
  let st' := (db_delete t "id" (Num id) st).1 in
  (∀ r, r ∈ rows (tget t st') ↔
        r ∈ rows (tget t st) ∧ r !! "id" ≠ Some (Num id)) ∧
  rows (tget t st') `sublist_of` rows (tget t st) ∧
  seq (tget t st') = seq (tget t st) ∧
  (∀ t', t' ≠ t → tget t' st' = tget t' st) ∧
  no_row t id st' = true ∧
  (ids_ok st = true → has_row t id st = true →
   (length (rows (tget t st')) + 1)%nat = length (rows (tget t st))).
Proof.
  rewrite db_delete_eq. cbn [fst]. rewrite tget_tset_eq. cbn [rows seq].
  split; [|split; [|split; [|split; [|split]]]].
  - intros r. rewrite list_elem_of_filter, eqCond_id. tauto.
  - apply sublist_filter.
  - done.
  - intros t' Hne. by apply tget_tset_ne.
  - unfold no_row. rewrite tget_tset_eq. cbn [rows].
    apply bool_decide_eq_true, where_eq_complement.
  - intros Hok Hhas%has_row_length. apply Z.ltb_lt in Hhas.
    pose proof (where_eq_unique st t id Hok).
    pose proof (filter_lengths "id" (Num id) (rows (tget t st))). lia.
Qed.

(** X6.  [DELETE /api/projects/:id] and [DELETE /api/products/:id] on a
    stored identifier answer 200 and remove the rows of that identifier and
    nothing else: the other rows stay, in their order, and every other
    table is left alone; with identifiers distinct, as they are in every
    reachable store, exactly one row goes.  Afterwards the identifier is
    gone: reading it, and deleting it again, answer 404. *)
Theorem delete_then_gone (st : Store) (id : Z) :
  (has_row projects id st = true →
   let st' := (delete_project id st).1 in
   delete_project id st
   = (st', Respond 200 (JsonMessage "Project deleted successfully")) ∧
   (∀ r, r ∈ rows (tbl_projects st') ↔
         r ∈ rows (tbl_projects st) ∧ r !! "id" ≠ Some (Num id)) ∧
   rows (tbl_projects st') `sublist_of` rows (tbl_projects st) ∧
   (∀ t, t ≠ projects → tget t st' = tget t st) ∧
   (ids_ok st = true →
    (length (rows (tbl_projects st')) + 1)%nat = length (rows (tbl_projects st))) ∧
   get_project id st' = (st', Respond 404 (JsonMessage "Project not found")) ∧
   delete_project id st' = (st', Respond 404 (JsonMessage "Project not found"))) ∧
  (has_row products id st = true →
   let st' := (delete_product id st).1 in
   delete_product id st
   = (st', Respond 200 (JsonMessage "Product deleted successfully")) ∧
   (∀ r, r ∈ rows (tbl_products st') ↔
         r ∈ rows (tbl_products st) ∧ r !! "id" ≠ Some (Num id)) ∧
   rows (tbl_products st') `sublist_of` rows (tbl_products st) ∧
   (∀ t, t ≠ products → tget t st' = tget t st) ∧
   (ids_ok st = true →
    (length (rows (tbl_products st')) + 1)%nat = length (rows (tbl_products st))) ∧
   get_product id st' = (st', Respond 404 (JsonMessage "Product not found")) ∧
   delete_product id st' = (st', Respond 404 (JsonMessage "Product not found"))).
Proof.
  split; intros Hhas st'.
  - destruct (deleted_store projects id st)
      as (Hin & Hsub & _ & Hother & Hno & Hlen).
    assert (st' = (db_delete projects "id" (Num id) st).1) as Hst'
      by (subst st'; by rewrite delete_project_eq).
    rewrite <-Hst' in *. cbn [tget] in *.
    split; [|split; [done|split; [done|split; [done|split; [by auto|]]]]].
    + rewrite Hst', delete_project_eq.
      pose proof (has_row_length _ _ _ Hhas) as Hl. cbn [tget] in Hl.
      by rewrite Hl.
    + pose proof (where_eq_nil _ _ _ Hno) as Hw. cbn [tget] in Hw.
      split; [by rewrite get_project_eq, Hw|].
      rewrite delete_project_eq, Hw. cbn [length Z.of_nat Z.ltb Z.compare].
      by rewrite (db_delete_no_match projects "id" (Num id) st' Hw).
  - destruct (deleted_store products id st)
      as (Hin & Hsub & _ & Hother & Hno & Hlen).
    assert (st' = (db_delete products "id" (Num id) st).1) as Hst'
      by (subst st'; by rewrite delete_product_eq).
    rewrite <-Hst' in *. cbn [tget] in *.
    split; [|split; [done|split; [done|split; [done|split; [by auto|]]]]].
    + rewrite Hst', delete_product_eq.
      pose proof (has_row_length _ _ _ Hhas) as Hl. cbn [tget] in Hl.
      by rewrite Hl.
    + pose proof (where_eq_nil _ _ _ Hno) as Hw. cbn [tget] in Hw.
      split; [by rewrite get_product_eq, Hw|].
      rewrite delete_product_eq, Hw. cbn [length Z.of_nat Z.ltb Z.compare].
      by rewrite (db_delete_no_match products "id" (Num id) st' Hw).
Qed.

Lemma delete_then_gone_witness :
  has_row projects 2 seeded = true ∧
  (delete_project 2 seeded).2
  = Respond 200 (JsonMessage "Project deleted successfully") ∧
  get_project 2 (delete_project 2 seeded).1
  = ((delete_project 2 seeded).1, Respond 404 (JsonMessage "Project not found")).
Proof.
  split; [by vm_compute|].
  destruct (delete_then_gone seeded 2) as [H _].
  destruct (H eq_refl) as (Hdel & _ & _ & _ & _ & Hget & _).
  split; [by rewrite Hdel|exact Hget].
Defined.

(** ** Messages and their replies *)

(** X7.  Marking a message as read shows on the next read: if
    [GET /api/messages/:id] answers with the message [r], then after
    [PUT /api/messages/:id/read] it answers with [r] in which [isRead] is
    true and nothing else has changed. *)
Theorem read_flag_is_read_back (st : Store) (id : Z) (r : Obj) :
  store_ok st = true →
  first_row (where_eq "id" (Num id) (rows (tbl_messages st))) = Some r →
  let st1 := (put_message_read id st).1 in
  get_message id st = (st, Respond 200 (Json (Some r))) ∧
  put_message_read id st
  = (st1, Respond 200 (JsonMessage "Message marked as read")) ∧
  get_message id st1
  = (st1, Respond 200 (Json (Some (<["isRead" := Bool true]> r)))).
Proof.
  intros Hok Hr st1.
  assert (has_row messages id st = true) as Hhas.
  { unfold has_row, no_row. cbn [tget]. apply negb_true_iff, bool_decide_eq_false.
    intros Hnil. by rewrite Hnil in Hr. }
  pose proof (markMessageAsRead_eq id st Hok) as Hm. rewrite Hhas in Hm.
  pose proof (put_message_read_eq _ _ _ _ Hm) as Hput. cbn iota in Hput.
  assert (st1 = tset messages
            {| rows := set_row {[ "isRead" := Bool true ]} "id" (Num id)
                         <$> rows (tbl_messages st);
               seq := seq (tbl_messages st) |} st) as ->
    by (subst st1; by rewrite Hput).
  split; [by rewrite get_message_eq, Hr|]. split; [done|].
  rewrite get_message_eq. cbn [tbl_messages tset rows].
  rewrite where_eq_set_row by done.
  destruct (where_eq "id" (Num id) (rows (tbl_messages st))) as [|r0 l];
    [done|]. injection Hr as ->. cbn.
  by rewrite insert_union_singleton_l.
Qed.

Lemma read_flag_is_read_back_witness :
  store_ok with_message = true ∧
  ∃ r, get_message 1 with_message = (with_message, Respond 200 (Json (Some r))) ∧
       r !! "isRead" = Some (Bool false) ∧
       get_message 1 (put_message_read 1 with_message).1
       = ((put_message_read 1 with_message).1,
          Respond 200 (Json (Some (<["isRead" := Bool true]> r)))).
Proof.
  split; [by vm_compute|].
  eexists. 
  destruct (read_flag_is_read_back with_message 1 _ eq_refl eq_refl)
    as (Hget & _ & Hget').
  split; [exact Hget|]. split; [by vm_compute|exact Hget'].
Defined.

(** X8.  [GET /api/messages] answers 200 with all stored messages, each
    once, a message listed earlier never created later. *)
Theorem get_messages_ascending (st : Store) :
  ∃ l, get_messages st = (st, Respond 200 (JsonList l)) ∧
       l ≡ₚ rows (tbl_messages st) ∧
       ∀ i j ri rj, (i < j)%nat → l !! i = Some ri → l !! j = Some rj →
                    createdAt_le ri rj.
Proof.
  exists (orderBy_createdAt (rows (tbl_messages st))).
  split; [done|]. apply orderBy_createdAt_spec.
Qed.

Lemma get_messages_ascending_witness :
  ∃ l, get_messages with_message = (with_message, Respond 200 (JsonList l)) ∧
       length l = 1%nat.
Proof.
  destruct (get_messages_ascending with_message) as (l & Hl & Hp & _).
  exists l. split; [exact Hl|]. by rewrite Hp.
Defined.




(** ** Bodies that fail validation *)








(** ** Seeding *)

Lemma store_ext st1 st2 : (∀ t, tget t st1 = tget t st2) → st1 = st2.
Proof.
  intros H. destruct st1, st2.
  pose proof (H siteConfig). pose proof (H projects). pose proof (H products).
  pose proof (H messages). pose proof (H messageReplies). cbn in *. congruence.
Qed.

Lemma getProjects_eq st :
  getProjects st = (st, Ok (orderBy_createdAt (rows (tbl_projects st)))).
Proof. done. Qed.

Lemma getProducts_eq st :
  getProducts st = (st, Ok (orderBy_createdAt (rows (tbl_products st)))).
Proof. done. Qed.

Lemma orderBy_createdAt_length l : length (orderBy_createdAt l) = length l.
Proof. unfold orderBy_createdAt. by rewrite merge_sort_Permutation. Qed.

(** The demo rows meet the constraints of their tables at any time, under
    any identifier. *)
Lemma demo_rows_ok :
  Forall (λ p, ∀ now sq st,
            row_ok st projects (fill_row now p (columns projects) sq).1 = true)
    demoProjects ∧
  Forall (λ p, ∀ now sq st,
            row_ok st products (fill_row now p (columns products) sq).1 = true)
    demoProducts.
Proof. split; repeat (constructor; [intros; by vm_compute|]); constructor. Qed.

Lemma for_each_insert t clock xs i st :
  Forall (λ p, ∀ now sq st,
            row_ok st t (fill_row now p (columns t) sq).1 = true) xs →
  ∃ st',
    for_each_from i xs
      (λ i x, l <- db_insert t (clock i) x ;; ret (first_row l)) st
    = (st', Ok tt) ∧
    (∀ t', t' ≠ t → tget t' st' = tget t' st) ∧
    ∃ new, rows (tget t st') = rows (tget t st) ++ new ∧
           length new = length xs.
Proof.
  intros Hxs. revert i st.
  induction Hxs as [|x xs Hx _ IH]; intros i st; cbn [for_each_from].
  - exists st. split; [done|]. split; [done|]. exists []. by rewrite app_nil_r.
  - pose proof (db_insert_ok t (clock i) x st (Hx _ _ _)) as Hins.
    set (st1 := tset t _ st) in Hins.
    destruct (IH (S i) st1) as (st' & Hrest & Hother & new & Hnew & Hlen).
    exists st'. split; [|split].
    + erewrite bind_ok; [exact Hrest|]. by erewrite bind_ok.
    + intros t' Hne. rewrite Hother by done. by apply tget_tset_ne.
    + eexists (_ :: new). split; [|by cbn; rewrite Hlen].
      rewrite Hnew. subst st1. rewrite tget_tset_eq. cbn [rows].
      by rewrite <-app_assoc.
Qed.

Lemma seed_phase t clock xs i st :
  Forall (λ p, ∀ now sq st,
            row_ok st t (fill_row now p (columns t) sq).1 = true) xs →
  ∃ st',
    (if decide (length (orderBy_createdAt (rows (tget t st))) = 0%nat)
     then for_each_from i xs
            (λ i x, l <- db_insert t (clock i) x ;; ret (first_row l))
     else ret tt) st = (st', Ok tt) ∧
    (∀ t', t' ≠ t → tget t' st' = tget t' st) ∧
    (rows (tget t st) ≠ [] → st' = st) ∧
    (rows (tget t st) = [] → length (rows (tget t st')) = length xs).
Proof.
  intros Hxs. rewrite orderBy_createdAt_length.
  destruct (decide (length (rows (tget t st)) = 0%nat)) as [Hl|Hl].
  - destruct (for_each_insert t clock xs i st Hxs)
      as (st' & Hrun & Hother & new & Hnew & Hlen).
    exists st'. split; [done|]. split; [done|]. split.
    + intros Hne. by destruct (rows (tget t st)).
    + intros Hnil. by rewrite Hnew, Hnil.
  - exists st. split; [done|]. split; [done|]. split; [done|].
    intros Hnil. by rewrite Hnil in Hl.
Qed.

Lemma config_phase clock st :
  ∃ st',
    match head (rows (tbl_site_config st)) with
    | None => _ <- updateSiteConfig (clock 0%nat) defaultConfig ;; ret tt
    | Some _ => ret tt
    end st = (st', Ok tt) ∧
    (∀ t', t' ≠ siteConfig → tget t' st' = tget t' st) ∧
    (rows (tbl_site_config st) ≠ [] → st' = st) ∧
    (rows (tbl_site_config st) = [] →
     ∃ row, rows (tbl_site_config st') = [row] ∧
            ∀ k v, defaultConfig !! k = Some v → row !! k = Some v).
Proof.
  destruct (rows (tbl_site_config st)) as [|r l] eqn:Hrows; cbn [head].
  - destruct (fill_row (clock 0%nat) defaultConfig siteConfig_columns
                (seq (tbl_site_config st))) as [row sq] eqn:Hfill.
    pose proof (defaultConfig_row (clock 0%nat) (seq (tbl_site_config st)) st)
      as [Hc _]. rewrite Hfill in Hc. cbn [fst] in Hc.
    eexists. split; [|split; [|split]].
    + by rewrite (bind_ok _ _ _ _ _
                    (updateSiteConfig_insert _ _ _ _ _ Hrows Hfill Hc)).
    + by intros [] ?.
    + done.
    + intros _. exists row. split; [done|]. intros k v Hk.
      replace row with (fill_row (clock 0%nat) defaultConfig siteConfig_columns
                          (seq (tbl_site_config st))).1 by by rewrite Hfill.
      apply fill_row_supplied; [|done].
      revert k v Hk. apply map_Forall_lookup.
      apply (bool_decide_unpack _). by vm_compute.
  - exists st. split; [done|]. split; [done|]. split; [done|]. done.
Qed.

Lemma initializeDefaults_spec clock st :
  ∃ st',
    initializeDefaults clock st = (st', Ok tt) ∧
    tbl_messages st' = tbl_messages st ∧
    tbl_message_replies st' = tbl_message_replies st ∧
    (rows (tbl_site_config st) ≠ [] → tbl_site_config st' = tbl_site_config st) ∧
    (rows (tbl_site_config st) = [] →
     ∃ row, rows (tbl_site_config st') = [row] ∧
            ∀ k v, defaultConfig !! k = Some v → row !! k = Some v) ∧
    (rows (tbl_projects st) ≠ [] → tbl_projects st' = tbl_projects st) ∧
    (rows (tbl_projects st) = [] → length (rows (tbl_projects st')) = 3%nat) ∧
    (rows (tbl_products st) ≠ [] → tbl_products st' = tbl_products st) ∧
    (rows (tbl_products st) = [] → length (rows (tbl_products st')) = 3%nat).
Proof.
  destruct demo_rows_ok as [Hprojects Hproducts].
  destruct (config_phase clock st) as (st1 & H1 & Ho1 & Hsame1 & Hnew1).
  destruct (seed_phase projects clock demoProjects 1 st1 Hprojects)
    as (st2 & H2 & Ho2 & Hsame2 & Hnew2).
  destruct (seed_phase products clock demoProducts 4 st2 Hproducts)
    as (st3 & H3 & Ho3 & Hsame3 & Hnew3).
  exists st3. split.
  { unfold initializeDefaults.
    rewrite (bind_ok _ _ _ _ _ (getSiteConfig_eq st)).
    rewrite (bind_ok _ _ _ _ _ H1).
    rewrite (bind_ok _ _ _ _ _ (getProjects_eq st1)).
    rewrite (bind_ok _ _ _ _ _ H2).
    rewrite (bind_ok _ _ _ _ _ (getProducts_eq st2)).
    exact H3. }
  pose proof (Ho1 projects) as Hp1. pose proof (Ho1 products) as Hq1.
  pose proof (Ho1 messages) as Hm1. pose proof (Ho1 messageReplies) as Hr1.
  pose proof (Ho2 siteConfig) as Hc2. pose proof (Ho2 products) as Hq2.
  pose proof (Ho2 messages) as Hm2. pose proof (Ho2 messageReplies) as Hr2.
  pose proof (Ho3 siteConfig) as Hc3. pose proof (Ho3 projects) as Hp3.
  pose proof (Ho3 messages) as Hm3. pose proof (Ho3 messageReplies) as Hr3.
  cbn [tget] in *.
  split; [by rewrite Hm3, Hm2, Hm1|]. split; [by rewrite Hr3, Hr2, Hr1|].
  rewrite Hc3, Hc2, Hp3 by done.
  split; [by intros ->%Hsame1|]. split; [done|].
  rewrite <-Hp1 by done. split; [by intros ->%Hsame2|]. split; [done|].
  rewrite <-Hq1, <-Hq2 by done. split; [by intros ->%Hsame3|done].
Qed.

(** X11.  The seeding routine never fails and fills only what is empty:
    a configuration table without a row receives the default
    configuration, a project or product table without a row its three
    demo rows, and a table that has a row is left exactly as it is;
    messages and replies are never touched.  Seeding once more changes
    nothing. *)
Theorem seeding_fills_empty_tables_once (st : Store) (clock : nat → Z) :
  ∃ st',
    initializeDefaults clock st = (st', Ok tt) ∧
    tbl_messages st' = tbl_messages st ∧
    tbl_message_replies st' = tbl_message_replies st ∧
    (rows (tbl_site_config st) ≠ [] → tbl_site_config st' = tbl_site_config st) ∧
    (rows (tbl_site_config st) = [] →
     ∃ row, rows (tbl_site_config st') = [row] ∧
            ∀ k v, defaultConfig !! k = Some v → row !! k = Some v) ∧
    (rows (tbl_projects st) ≠ [] → tbl_projects st' = tbl_projects st) ∧
    (rows (tbl_projects st) = [] → length (rows (tbl_projects st')) = 3%nat) ∧
    (rows (tbl_products st) ≠ [] → tbl_products st' = tbl_products st) ∧
    (rows (tbl_products st) = [] → length (rows (tbl_products st')) = 3%nat) ∧
    ∀ clock', initializeDefaults clock' st' = (st', Ok tt).
Proof.
  destruct (initializeDefaults_spec clock st)
    as (st' & Hrun & Hm & Hr & Hc & Hc0 & Hp & Hp0 & Hq & Hq0).
  exists st'. do 9 (split; [done|]). intros clock'.
  assert (rows (tbl_site_config st') ≠ [] ∧ rows (tbl_projects st') ≠ [] ∧
          rows (tbl_products st') ≠ []) as (Hc' & Hp' & Hq').
  { split; [|split].
    - destruct (rows (tbl_site_config st)) eqn:E.
      + destruct (Hc0 eq_refl) as (row & -> & _). done.
      + rewrite Hc, E; done.
    - destruct (rows (tbl_projects st)) eqn:E.
      + intros Hnil. specialize (Hp0 eq_refl). by rewrite Hnil in Hp0.
      + rewrite Hp, E; done.
    - destruct (rows (tbl_products st)) eqn:E.
      + intros Hnil. specialize (Hq0 eq_refl). by rewrite Hnil in Hq0.
      + rewrite Hq, E; done. }
  destruct (initializeDefaults_spec clock' st')
    as (st'' & Hrun' & Hm' & Hr' & Hc'' & _ & Hp'' & _ & Hq'' & _).
  rewrite Hrun'. f_equal. apply store_ext. intros []; cbn [tget]; auto.
Qed.

Lemma seeding_fills_empty_tables_once_witness :
  ∃ st', initializeDefaults (λ i, 1000 + Z.of_nat i) emptyStore = (st', Ok tt) ∧
         initializeDefaults (λ i, 5000 + Z.of_nat i) st' = (st', Ok tt).
Proof.
  destruct (seeding_fills_empty_tables_once emptyStore (λ i, 1000 + Z.of_nat i))
    as (st' & Hrun & _ & _ & _ & _ & _ & _ & _ & _ & Hagain).
  exists st'. split; [exact Hrun|apply Hagain].
Defined.

(** ** The configuration, written and read *)



(** ** What no request does *)






(** ** Validated payloads *)

Lemma parse_field_optional f x r :
  parse_field f x = Some r → parse_field (optional f) x = Some r.
Proof.
  unfold parse_field. cbn [zoptional znullable ztype optional].
  destruct x as [v|]; [done|]. by destruct (zoptional f).
Qed.

Lemma parse_ext s input1 input2 out1 :
  (∀ k, k ∈ s.*1 → input1 !! k = input2 !! k) →
  parse s input1 = Ok out1 → parse s input2 = Ok out1.
Proof.
  revert out1. induction s as [|[k f] s IH]; intros out1 Hext Hp; [done|].
  cbn [parse] in *. rewrite <-(Hext k) by apply list_elem_of_here.
  destruct (parse_field f (input1 !! k)) as [r|]; [|done].
  destruct (parse s input1) as [out|]; [|by destruct r].
  rewrite (IH out); [done| |done].
  intros k' Hk'. apply Hext. rewrite fmap_cons. by apply list_elem_of_further.
Qed.

Lemma parse_partial s input out :
  parse s input = Ok out → parse (partial s) input = Ok out.
Proof.
  unfold partial.
  revert out. induction s as [|[k f] s IH]; intros out Hp; [done|].
  rewrite fmap_cons. cbn [parse fst snd] in *.
  destruct (parse_field f (input !! k)) as [r|] eqn:Hf; [|done].
  rewrite (parse_field_optional _ _ _ Hf).
  destruct (parse s input) as [out'|]; [|by destruct r].
  by rewrite (IH out' eq_refl).
Qed.

(** X15.  What validation hands to the storage layer is a part of the
    body: only fields of the schema, each with the value the body gave it;
    in particular never [id] or [createdAt] for the five schemas of the
    routes.  A validated payload validates again to itself, and a body
    that is valid for creating is valid for updating, with the same
    payload. *)
Theorem validated_payload_is_part_of_body (s : Schema) (body data : Obj) :
  parse s body = Ok data →
  data ⊆ body ∧
  (∀ k v, data !! k = Some v → k ∈ s.*1) ∧
  (∀ k, k ∈ s.*1 → data !! k = body !! k) ∧
  parse s data = Ok data ∧
  parse (partial s) body = Ok data ∧
  (s ∈ [insertSiteConfigSchema; insertProjectSchema; insertProductSchema;
        insertMessageSchema; insertMessageReplySchema] →
   data !! "id" = None ∧ data !! "createdAt" = None).
Proof.
  intros Hp.
  assert (∀ k, data !! k = if decide (k ∈ s.*1) then body !! k else None)
    as Hlook by (intros k; by apply parse_lookup).
  split; [|split; [|split; [|split; [|split]]]].
  - apply map_subseteq_spec. intros k v Hk. rewrite Hlook in Hk.
    by case_decide.
  - intros k v Hk. rewrite Hlook in Hk. by case_decide.
  - intros k Hk. by rewrite Hlook, decide_True.
  - apply (parse_ext s body data); [|done].
    intros k Hk. by rewrite Hlook, decide_True.
  - by apply parse_partial.
  - intros Hs.
    by destruct (schema_omits_identity s body data None Hs (or_introl Hp))
      as (_ & _ & ? & ?).
Qed.

Lemma validated_payload_is_part_of_body_witness :
  let body : Obj := {[ "title" := Str "t"; "description" := Str "d";
                       "category" := Str "c"; "id" := Num 9;
                       "extra" := Bool true ]} in
  let data : Obj := {[ "title" := Str "t"; "description" := Str "d";
                       "category" := Str "c" ]} in
  parse insertProjectSchema body = Ok data ∧
  parse (partial insertProjectSchema) body = Ok data.
Proof.
  intros body data. split; [reflexivity|].
  apply (validated_payload_is_part_of_body insertProjectSchema body data).
  reflexivity.
Defined.

(** ** Users *)




